(** * concatfile: the Append Operator of [library/concatfile.py]

    A shallow embedding of the target-side module [main] and of the
    operating-system and Ansible helpers it calls, followed by the
    properties of the idempotent-append procedure.

    Modelling conventions.
    - Paths are strings in a flat name space: the file system is a finite
      map from path to node.  Every parent directory is taken to exist and
      to be writable; link targets are absolute; there are no hard links.
    - A node carries its permission bits; the module runs as the owner of
      the files and not as root, so the owner bits decide [os.access] and
      [open].
    - A computation returns a value or raises a Python exception, may change
      the file system, and emits the list of file operations it performed. *)

From Stdlib Require Import NArith Ascii.
From stdpp Require Import gmap strings list fin_maps.


(** ** Files, directories and symbolic links *)

Abbreviation path := string (only parsing).

Record Meta := { mode : N }.

Inductive node :=
| File (content : string) (meta : Meta)
| Dir (meta : Meta)
| Link (target : path).

Abbreviation FS := (gmap string node).

(** What a node is, permissions left out. *)
Inductive node_data :=
| DFile (content : string)
| DDir
| DLink (target : path).

Definition data_of (n : node) : node_data :=
  match n with
  | File c _ => DFile c
  | Dir _ => DDir
  | Link t => DLink t
  end.

(** Owner read and write bits, 0400 and 0200. *)
Definition readable (m : Meta) : bool := N.testbit (mode m) 8.
Definition writable (m : Meta) : bool := N.testbit (mode m) 7.

(** Mode of a file created by [open], 0644. *)
Definition default_meta : Meta := {| mode := 420 |}.

(** The kernel gives up after this many nested links (ELOOP). *)
Definition MAXSYMLINKS : nat := 40.

(** Follow the links starting at [p]; [None] when the fuel runs out. The
    path returned is not a link: it names a file, a directory, or nothing. *)
Fixpoint follow (fs : FS) (fuel : nat) (p : path) : option path :=
  match fs !! p with
  | Some (Link t) =>
      match fuel with
      | O => None
      | S n => follow fs n t
      end
  | _ => Some p
  end.

(** [os.lstat] and [os.stat]. *)
Definition lstat (fs : FS) (p : path) : option node := fs !! p.

Definition stat (fs : FS) (p : path) : option node :=
  match follow fs MAXSYMLINKS p with
  | Some q => fs !! q
  | None => None
  end.

(** [os.path.exists], [os.path.islink], [os.path.isdir], [os.access(p, R_OK)]. *)
Definition path_exists (fs : FS) (p : path) : bool :=
  match stat fs p with Some _ => true | None => false end.

Definition path_islink (fs : FS) (p : path) : bool :=
  match lstat fs p with Some (Link _) => true | _ => false end.

Definition path_isdir (fs : FS) (p : path) : bool :=
  match stat fs p with Some (Dir _) => true | _ => false end.

Definition access_R_OK (fs : FS) (p : path) : bool :=
  match stat fs p with
  | Some (File _ m) | Some (Dir m) => readable m
  | _ => false
  end.

(** [os.path.realpath] resolves in user space, without the kernel's limit:
    a chain without a cycle has at most [size fs] links.  On a cycle the
    path is given back as it is (no caller reaches that case: [main] asks
    for the real path of an existing destination only). *)
Definition path_realpath (fs : FS) (p : path) : path :=
  match follow fs (MAXSYMLINKS + size fs) p with
  | Some q => q
  | None => p
  end.

(** [os.path.basename]: what follows the last slash. *)
Fixpoint basename_from (acc s : string) : string :=
  match s with
  | EmptyString => acc
  | String c s' =>
      if Ascii.eqb c "/"%char then basename_from "" s'
      else basename_from (acc +:+ String c "") s'
  end.

Definition basename (p : path) : string := basename_from "" p.

(** The content of the file a path leads to, whatever its permissions. *)
Definition file_content (fs : FS) (p : path) : option string :=
  match stat fs p with
  | Some (File c _) => Some c
  | _ => None
  end.

(** [s in d] on Python strings. *)
Fixpoint is_substring (s d : string) : bool :=
  String.prefix s d ||
  match d with
  | EmptyString => false
  | String _ d' => is_substring s d'
  end.

(** ** Exceptions, events and the monad of module code *)

Inductive errno := ENOENT | EACCES | EISDIR | ELOOP.

Inductive Exc :=
| IOError (e : errno) (p : path)
| OSError (e : errno) (p : path)
| ShutilError (src dst : path)
| ValueError
| FailJson (msg : string).

(** [str(e)], as [backup_local] puts it in its message. *)
Definition strerror (e : errno) : string :=
  match e with
  | ENOENT => "[Errno 2] No such file or directory"
  | EACCES => "[Errno 13] Permission denied"
  | EISDIR => "[Errno 21] Is a directory"
  | ELOOP => "[Errno 40] Too many levels of symbolic links"
  end.

Definition exc_text (x : Exc) : string :=
  match x with
  | IOError e p | OSError e p => strerror e +:+ ": '" +:+ p +:+ "'"
  | ShutilError s d => "`" +:+ s +:+ "` and `" +:+ d +:+ "` are the same file"
  | ValueError => "MD5 not available.  Possibly running in FIPS mode"
  | FailJson msg => msg
  end.

(** The file operations a run performs, in order. *)
Inductive Event :=
| EExists (p : path)
| EAccess (p : path)
| EIslink (p : path)
| ERealpath (p : path)
| EIsdir (p : path)
| EDigest (p : path)
| EOpenR (p : path)
| EUnlink (p : path)
| EOpenW (p : path)
| EBackup (p b : path)
| EAppend (p : path).

Inductive Res (A : Type) :=
| Ok (a : A)
| Raise (x : Exc).
Arguments Ok {A} a.
Arguments Raise {A} x.

Definition M (A : Type) : Type := FS → Res A * FS * list Event.

Definition ret {A} (a : A) : M A := λ fs, (Ok a, fs, []).

Definition bind {A B} (m : M A) (k : A → M B) : M B := λ fs,
  match m fs with
  | (Ok a, fs1, t1) =>
      match k a fs1 with
      | (r, fs2, t2) => (r, fs2, t1 ++ t2)
      end
  | (Raise x, fs1, t1) => (Raise x, fs1, t1)
  end.

Definition raise {A} (x : Exc) : M A := λ fs, (Raise x, fs, []).

(** [try: m except <caught>: h] *)
Definition try_except {A} (m : M A) (caught : Exc → bool) (h : Exc → M A) : M A :=
  λ fs,
  match m fs with
  | (Raise x, fs1, t1) =>
      if caught x then
        match h x fs1 with
        | (r, fs2, t2) => (r, fs2, t1 ++ t2)
        end
      else (Raise x, fs1, t1)
  | r => r
  end.

Definition is_IOError (x : Exc) : bool :=
  match x with IOError _ _ => true | _ => false end.
Definition is_ValueError (x : Exc) : bool :=
  match x with ValueError => true | _ => false end.
Definition is_copy_error (x : Exc) : bool :=
  match x with IOError _ _ | ShutilError _ _ => true | _ => false end.

Declare Scope py_scope.
Delimit Scope py_scope with py.
Notation "x <- m ;; k" := (bind m (λ x, k))
  (at level 100, m at next level, right associativity) : py_scope.
Notation "m ;;; k" := (bind m (λ _, k))
  (at level 100, right associativity) : py_scope.
Open Scope py_scope.

(** An observation of the file system, logged. *)
Definition observe {A} (e : Event) (f : FS → A) : M A :=
  λ fs, (Ok (f fs), fs, [e]).

(** A step that may fail and may change the file system, logged. *)
Definition perform {A} (e : Event) (f : FS → Exc + (A * FS)) : M A :=
  λ fs,
  match f fs with
  | inl x => (Raise x, fs, [e])
  | inr (a, fs') => (Ok a, fs', [e])
  end.

Definition when (b : bool) (m : M unit) : M unit :=
  if b then m else ret tt.

Definition peek {A} (f : FS → A) : M A := λ fs, (Ok (f fs), fs, []).

(** ** File operations *)

(** [open(p, 'r').read()] *)
Definition read_file (fs : FS) (p : path) : Exc + string :=
  match follow fs MAXSYMLINKS p with
  | None => inl (IOError ELOOP p)
  | Some q =>
      match fs !! q with
      | None => inl (IOError ENOENT p)
      | Some (File c m) => if readable m then inr c else inl (IOError EACCES p)
      | Some (Dir _) => inl (IOError EISDIR p)
      | Some (Link _) => inl (IOError ELOOP p)
      end
  end.

(** [open(p, 'w')], write [c], close: the file is created when missing and
    truncated otherwise. *)
Definition write_file (fs : FS) (p : path) (c : string) : Exc + FS :=
  match follow fs MAXSYMLINKS p with
  | None => inl (IOError ELOOP p)
  | Some q =>
      match fs !! q with
      | None => inr (<[q := File c default_meta]> fs)
      | Some (File _ m) =>
          if writable m then inr (<[q := File c m]> fs) else inl (IOError EACCES p)
      | Some (Dir _) => inl (IOError EISDIR p)
      | Some (Link _) => inl (IOError ELOOP p)
      end
  end.

(** [open(p, 'a')], write [s], close. *)
Definition append_file (fs : FS) (p : path) (s : string) : Exc + FS :=
  match follow fs MAXSYMLINKS p with
  | None => inl (IOError ELOOP p)
  | Some q =>
      match fs !! q with
      | None => inr (<[q := File s default_meta]> fs)
      | Some (File c m) =>
          if writable m then inr (<[q := File (c +:+ s) m]> fs)
          else inl (IOError EACCES p)
      | Some (Dir _) => inl (IOError EISDIR p)
      | Some (Link _) => inl (IOError ELOOP p)
      end
  end.

(** [os.unlink] removes the name itself and raises [OSError]. *)
Definition unlink (fs : FS) (p : path) : Exc + FS :=
  match fs !! p with
  | None => inl (OSError ENOENT p)
  | Some (Dir _) => inl (OSError EISDIR p)
  | Some _ => inr (delete p fs)
  end.

(** [os.path.samefile], false when either path does not lead anywhere. *)
Definition samefile (fs : FS) (a b : path) : bool :=
  match follow fs MAXSYMLINKS a, follow fs MAXSYMLINKS b with
  | Some qa, Some qb =>
      match fs !! qa, fs !! qb with
      | Some _, Some _ => bool_decide (qa = qb)
      | _, _ => false
      end
  | _, _ => false
  end.

Fixpoint ends_with_slash (s : string) : bool :=
  match s with
  | EmptyString => false
  | String c EmptyString => Ascii.eqb c "/"%char
  | String _ s' => ends_with_slash s'
  end.

(** [os.path.join a b] for a relative [b]. *)
Definition path_join (a b : string) : string :=
  match a with
  | EmptyString => b
  | _ => if ends_with_slash a then a +:+ b else a +:+ "/" +:+ b
  end.

(** Where [shutil.copy2 src dst] writes: inside [dst] when it is a
    directory. *)
Definition copy_target (fs : FS) (src dst : path) : path :=
  if path_isdir fs dst then path_join dst (basename src) else dst.

(** [os.chmod]-like copy of the permission bits onto what [p] leads to. *)
Definition set_meta (fs : FS) (p : path) (m : Meta) : FS :=
  match follow fs MAXSYMLINKS p with
  | Some q =>
      match fs !! q with
      | Some (File c _) => <[q := File c m]> fs
      | Some (Dir _) => <[q := Dir m]> fs
      | _ => fs
      end
  | None => fs
  end.

(** [shutil.copy2]: refuse to copy a file onto itself, copy the content,
    then the permission bits. *)
Definition copy2 (fs : FS) (src dst : path) : Exc + FS :=
  let dst := copy_target fs src dst in
  if samefile fs src dst then inl (ShutilError src dst)
  else
    match read_file fs src with
    | inl x => inl x
    | inr c =>
        match write_file fs dst c with
        | inl x => inl x
        | inr fs' =>
            match stat fs src with
            | Some (File _ m) => inr (set_meta fs' dst m)
            | _ => inr fs'
            end
        end
    end.

(** ** The module object *)

(** What the host provides: the two digests, whether MD5 may be used (it
    may not in FIPS mode), the time stamp [backup_local] puts in a backup's
    name, and [os.path.expanduser]. *)
Record Env := {
  sha1_hex : string → string;
  md5_hex : string → string;
  md5_available : bool;
  backup_ext : string;
  expanduser : path → path
}.

(** [module.params] and the options of the file-attribute collaborator. *)
Record Params := {
  p_src : path;
  p_dest : path;
  p_backup : bool;
  p_force : bool;
  p_follow : bool;
  p_mode : option N
}.

(** The file-attribute collaborator behind
    [module.set_fs_attributes_if_different]: whether an attribute of the
    destination differs from what the request asks for, and the file system
    once the attributes are set. *)
Record AttrCollab := {
  attrs_differ : Params → FS → bool;
  attrs_apply : Params → FS → FS
}.

Definition fail_json {A} (msg : string) : M A := raise (FailJson msg).

(** [module.digest_from_file]: no digest for a missing file, a failure for
    a directory. *)
Definition digest_from_file (p : path) (h : string → string) : M (option string) :=
  e <- peek (λ fs, path_exists fs p) ;;
  if negb e then ret None
  else
    d <- peek (λ fs, path_isdir fs p) ;;
    if d then fail_json ("attempted to take checksum of directory: " +:+ p)
    else
      c <- perform (EDigest p)
             (λ fs, match read_file fs p with
                    | inl x => inl x
                    | inr c => inr (c, fs)
                    end) ;;
      ret (Some (h c)).

Definition module_sha1 (env : Env) (p : path) : M (option string) :=
  digest_from_file p (sha1_hex env).

Definition module_md5 (env : Env) (p : path) : M (option string) :=
  if md5_available env then digest_from_file p (md5_hex env)
  else raise ValueError.

(** [module.backup_local]: a copy named after the file and the time. *)
Definition backup_local (env : Env) (fn : path) : M string :=
  e <- peek (λ fs, path_exists fs fn) ;;
  if e then
    let backupdest := fn +:+ "." +:+ backup_ext env in
    try_except
      (perform (EBackup fn backupdest)
         (λ fs, match copy2 fs fn backupdest with
                | inl x => inl x
                | inr fs' => inr (tt, fs')
                end))
      is_copy_error
      (λ x, fail_json ("Could not make backup of " +:+ fn +:+ " to "
                         +:+ backupdest +:+ ": " +:+ exc_text x)) ;;;
    ret backupdest
  else ret "".

(** [module.append_to_file] *)
Definition append_to_file (filename : path) (s : string) : M unit :=
  perform (EAppend filename)
    (λ fs, match append_file fs filename s with
           | inl x => inl x
           | inr fs' => inr (tt, fs')
           end).

(** [module.set_fs_attributes_if_different]: the flag passed in, or true
    when an attribute had to change; nothing is changed in check mode. *)
Definition set_fs_attributes_if_different
    (c : AttrCollab) (ps : Params) (check changed : bool) : M bool :=
  λ fs,
  if attrs_differ c ps fs
  then (Ok true, if check then fs else attrs_apply c ps fs, [])
  else (Ok changed, fs, []).

(** ** Python values and the result dictionary *)

Inductive Value :=
| VStr (s : string)
| VBool (b : bool)
| VNone.

Definition of_opt (o : option string) : Value :=
  match o with
  | Some s => VStr s
  | None => VNone
  end.

(** Truth value of [backup_file]: [None] and the empty string are false. *)
Definition truthy (o : option string) : bool :=
  match o with
  | Some s => negb (String.eqb s "")
  | None => false
  end.

(** ** [main] *)

(** Lines 167-170: the source must exist and be readable. *)
Definition check_source (src : path) : M unit :=
  e <- observe (EExists src) (λ fs, path_exists fs src) ;;
  when (negb e) (fail_json ("Source " +:+ src +:+ " not found")) ;;;
  a <- observe (EAccess src) (λ fs, access_R_OK fs src) ;;
  when (negb a) (fail_json ("Source " +:+ src +:+ " not readable")).

(** Lines 172-178: the SHA-1 of the source, and its MD5 unless MD5 is not
    to be had. *)
Definition source_digests (env : Env) (src : path)
    : M (option string * option string) :=
  checksum_src <- module_sha1 env src ;;
  md5sum_src <- try_except (module_md5 env src) is_ValueError (λ _, ret None) ;;
  ret (checksum_src, md5sum_src).

(** Lines 182-190: the destination must exist; a link is replaced by its
    real path, which must not be a directory. Returns the destination to
    work on and its digest when it is readable. *)
Definition resolve_dest (env : Env) (dest : path) : M (path * option string) :=
  e <- observe (EExists dest) (λ fs, path_exists fs dest) ;;
  if e then
    l <- observe (EIslink dest) (λ fs, path_islink fs dest) ;;
    dest <- (if l then observe (ERealpath dest) (λ fs, path_realpath fs dest)
             else ret dest) ;;
    d <- observe (EIsdir dest) (λ fs, path_isdir fs dest) ;;
    when d (fail_json ("Source " +:+ dest +:+ " is directory, must be file")) ;;;
    a <- observe (EAccess dest) (λ fs, access_R_OK fs dest) ;;
    checksum_dest <- (if a then module_sha1 env dest else ret None) ;;
    ret (dest, checksum_dest)
  else fail_json ("Destination " +:+ dest +:+ " doesn't exists").

(** Lines 207-210, and the same three statements at lines 212-215: the
    backup when asked for, the append, [changed = True]. *)
Definition backup_and_append (env : Env) (dest : path) (sourcefile : string)
    (backup : bool) : M (bool * option string) :=
  backup_file <- (if backup then b <- backup_local env dest ;; ret (Some b)
                  else ret None) ;;
  append_to_file dest sourcefile ;;;
  ret (true, backup_file).

(** Lines 195-222, the body of the [try]: returns [changed] and
    [backup_file]. *)
Definition append_body (env : Env) (src dest : path) (backup force check : bool)
    : M (bool * option string) :=
  l <- observe (EIslink dest) (λ fs, path_islink fs dest) ;;
  when l (perform (EUnlink dest)
            (λ fs, match unlink fs dest with
                   | inl x => inl x
                   | inr fs' => inr (tt, fs')
                   end) ;;;
          perform (EOpenW dest)
            (λ fs, match write_file fs dest "" with
                   | inl x => inl x
                   | inr fs' => inr (tt, fs')
                   end)) ;;;
  sourcefile <- perform (EOpenR src)
                  (λ fs, match read_file fs src with
                         | inl x => inl x
                         | inr c => inr (c, fs)
                         end) ;;
  if negb force && negb check then
    destfile <- perform (EOpenR dest)
                  (λ fs, match read_file fs dest with
                         | inl x => inl x
                         | inr c => inr (c, fs)
                         end) ;;
    if is_substring sourcefile destfile then ret (false, None)
    else backup_and_append env dest sourcefile backup
  else if negb check then backup_and_append env dest sourcefile backup
  else
    destfile <- perform (EOpenR dest)
                  (λ fs, match read_file fs dest with
                         | inl x => inl x
                         | inr c => inr (c, fs)
                         end) ;;
    if is_substring sourcefile destfile then ret (false, None)
    else ret (true, None).

(** Lines 192-224: the [try] and its handler. *)
Definition append_step (env : Env) (src dest : path) (backup force check : bool)
    : M (bool * option string) :=
  try_except (append_body env src dest backup force check) is_IOError
    (λ _, fail_json ("failed to append: " +:+ src +:+ " to " +:+ dest)).

(** Lines 226-230: the result dictionary before attribute reconciliation. *)
Definition res_args (dest src : path) (md5sum_src checksum_src : option string)
    (check changed : bool) (backup_file : option string) : gmap string Value :=
  let r : gmap string Value :=
    <["changed" := VBool changed]>
      (<["check" := VBool check]>
         (<["checksum" := of_opt checksum_src]>
            (<["md5sum" := of_opt md5sum_src]>
               (<["src" := VStr src]> {["dest" := VStr dest]})))) in
  if truthy backup_file
  then <["backup_file" := of_opt backup_file]> r
  else r.

(** The module, from the parameters to the dictionary given to
    [exit_json]. A failure is the exception [FailJson]. *)
Definition main (env : Env) (c : AttrCollab) (ps : Params) (check : bool)
    : M (gmap string Value) :=
  let src := p_src ps in
  let dest := expanduser env (p_dest ps) in
  let backup := p_backup ps in
  let force := p_force ps in
  check_source src ;;;
  ds <- source_digests env src ;;
  rd <- resolve_dest env dest ;;
  let dest := fst rd in
  cb <- append_step env src dest backup force check ;;
  let r := res_args dest src (snd ds) (fst ds) check (fst cb) (snd cb) in
  changed <- set_fs_attributes_if_different c ps check (fst cb) ;;
  ret (<["changed" := VBool changed]> r).

(** A run from a file system: the outcome, the file system left behind and
    the operations performed. *)
Definition run {A} (m : M A) (fs : FS) : Res A * FS * list Event := m fs.

(** ** A collaborator that reconciles the permission bits

    In the manner of Ansible's [set_mode_if_different]: when a mode is
    asked for and the destination's differs, it is set. *)
Definition mode_differs (ps : Params) (fs : FS) : bool :=
  match p_mode ps, stat fs (p_dest ps) with
  | Some m, Some (File _ meta) | Some m, Some (Dir meta) =>
      negb (N.eqb (mode meta) m)
  | _, _ => false
  end.

Definition mode_apply (ps : Params) (fs : FS) : FS :=
  match p_mode ps with
  | Some m => set_meta fs (p_dest ps) {| mode := m |}
  | None => fs
  end.

Definition mode_collab : AttrCollab :=
  {| attrs_differ := mode_differs; attrs_apply := mode_apply |}.

(** The collaborator changes attributes, never what a node is or holds. *)
Definition keeps_data (c : AttrCollab) : Prop :=
  ∀ ps fs p, data_of <$> (attrs_apply c ps fs !! p) = data_of <$> (fs !! p).

(** ** A small host for the examples *)

Definition env0 : Env :=
  {| sha1_hex := λ s, "sha1:" +:+ s;
     md5_hex := λ s, "md5:" +:+ s;
     md5_available := true;
     backup_ext := "2015-02-12@22:09:33~";
     expanduser := λ p, p |}.

Definition rw : Meta := {| mode := 420 |}.

Definition nl : string := String (ascii_of_nat 10) "".

Definition alias_line : string := "alias ll='ls -la'" +:+ nl.

Definition fs_alias : FS :=
  <["/tmp/source" := File alias_line rw]>
    {["/home/u/.bashrc" := File alias_line rw]}.

Definition ps_alias (force : bool) : Params :=
  {| p_src := "/tmp/source"; p_dest := "/home/u/.bashrc"; p_backup := false;
     p_force := force; p_follow := false; p_mode := None |}.

(** The destination [main] works on once line 184 has run. *)
Definition real_dest (fs : FS) (dest : path) : path :=
  if path_islink fs dest then path_realpath fs dest else dest.

(** * Properties *)

(** ** Path resolution *)

Lemma follow_mono (fs : FS) n m p q :
  follow fs n p = Some q → n ≤ m → follow fs m p = Some q.
Proof.
  revert m p. induction n as [|n IH]; intros m p H Hle; simpl in H.
  - destruct m; simpl; destruct (fs !! p) as [[| |t]|]; congruence.
  - destruct m as [|m]; simpl.
    + destruct (fs !! p) as [[| |t]|]; try congruence. lia.
    + destruct (fs !! p) as [[| |t]|]; try congruence.
      apply IH; [assumption | lia].
Qed.

Lemma follow_not_link (fs : FS) n p q t :
  follow fs n p = Some q → fs !! q ≠ Some (Link t).
Proof.
  revert p. induction n as [|n IH]; intros p H; simpl in H.
  - destruct (fs !! p) as [[| |t']|] eqn:E; congruence.
  - destruct (fs !! p) as [[| |t']|] eqn:E; try congruence. eauto.
Qed.

Lemma follow_stop (fs : FS) n p :
  (∀ t, fs !! p ≠ Some (Link t)) → follow fs n p = Some p.
Proof.
  intros H. destruct n; simpl; destruct (fs !! p) as [[| |t]|] eqn:E;
    try reflexivity; exfalso; eapply H; reflexivity.
Qed.

Lemma follow_idem (fs : FS) n m p q :
  follow fs n p = Some q → follow fs m q = Some q.
Proof.
  intros H. apply follow_stop. intros t. eapply follow_not_link, H.
Qed.

(** Two file systems with the same links resolve paths alike. *)
Lemma follow_same_links (fs1 fs2 : FS) n p :
  (∀ q, data_of <$> (fs1 !! q) = data_of <$> (fs2 !! q)) →
  follow fs1 n p = follow fs2 n p.
Proof.
  intros H. revert p. induction n as [|n IH]; intros p; simpl;
    specialize (H p) as Hp;
    destruct (fs1 !! p) as [[| |t1]|], (fs2 !! p) as [[| |t2]|];
    simpl in Hp; try congruence; reflexivity.
Qed.

Lemma file_content_same_data (fs1 fs2 : FS) p :
  (∀ q, data_of <$> (fs1 !! q) = data_of <$> (fs2 !! q)) →
  file_content fs1 p = file_content fs2 p.
Proof.
  intros H. unfold file_content, stat.
  rewrite (follow_same_links fs1 fs2 _ p H).
  destruct (follow fs2 MAXSYMLINKS p) as [q|]; [|reflexivity].
  specialize (H q).
  destruct (fs1 !! q) as [[| |]|], (fs2 !! q) as [[| |]|];
    simpl in H; congruence.
Qed.

(** An existing path and the destination [main] derives from it lead to
    the same node, and the derived path is that node's own name. *)
Lemma stat_real_dest (fs : FS) dest n :
  stat fs dest = Some n →
  fs !! real_dest fs dest = Some n ∧
  follow fs MAXSYMLINKS dest = Some (real_dest fs dest) ∧
  (∀ t, n ≠ Link t).
Proof.
  unfold stat, real_dest, path_islink, path_realpath, lstat. intros H.
  destruct (follow fs MAXSYMLINKS dest) as [q|] eqn:F; [|discriminate].
  assert (Hq : ∀ t, n ≠ Link t).
  { intros t ->. eapply follow_not_link; eassumption. }
  destruct (fs !! dest) as [[| |t]|] eqn:E.
  - rewrite follow_stop in F by (intros t; congruence).
    injection F as <-. rewrite E. split; [congruence|]. split; [reflexivity|exact Hq].
  - rewrite follow_stop in F by (intros t; congruence).
    injection F as <-. rewrite E. split; [congruence|]. split; [reflexivity|exact Hq].
  - rewrite (follow_mono fs MAXSYMLINKS (MAXSYMLINKS + size fs) dest q F) by lia.
    auto.
  - rewrite follow_stop in F by (intros t; congruence).
    injection F as <-. congruence.
Qed.

Lemma own_name_stat (fs : FS) p n :
  fs !! p = Some n → (∀ t, n ≠ Link t) →
  follow fs MAXSYMLINKS p = Some p ∧ stat fs p = Some n ∧ path_islink fs p = false.
Proof.
  intros H Hn.
  assert (F : follow fs MAXSYMLINKS p = Some p).
  { apply follow_stop. intros t E. rewrite H in E. injection E as ->. eapply Hn; eauto. }
  unfold stat, path_islink, lstat. rewrite F, H. repeat split.
  destruct n; try reflexivity. exfalso; eapply Hn; eauto.
Qed.

Lemma stat_not_link (fs : FS) p t : stat fs p ≠ Some (Link t).
Proof.
  unfold stat. destruct (follow fs MAXSYMLINKS p) as [q|] eqn:F; [|discriminate].
  eapply follow_not_link, F.
Qed.

Lemma read_file_stat (fs : FS) p c m :
  stat fs p = Some (File c m) →
  read_file fs p = if readable m then inr c else inl (IOError EACCES p).
Proof.
  unfold stat, read_file.
  destruct (follow fs MAXSYMLINKS p) as [q|]; [|discriminate].
  intros ->. reflexivity.
Qed.

#[global] Arguments read_file : simpl never.
#[global] Arguments write_file : simpl never.
#[global] Arguments append_file : simpl never.
#[global] Arguments copy2 : simpl never.
#[global] Arguments unlink : simpl never.
#[global] Arguments digest_from_file : simpl never.

(** ** Sequencing *)

(** Run a computation symbolically: simplify, use the known facts [tac]
    rewrites with, and again while that makes progress. *)
Ltac run_with tac := repeat (progress (simpl; tac)).

Lemma bind_ok {A B} (m : M A) (k : A → M B) fs a fs1 t1 :
  m fs = (Ok a, fs1, t1) →
  bind m k fs = (let '(r, fs2, t2) := k a fs1 in (r, fs2, t1 ++ t2)).
Proof. unfold bind. intros ->. reflexivity. Qed.

Lemma bind_raise {A B} (m : M A) (k : A → M B) fs x fs1 t1 :
  m fs = (Raise x, fs1, t1) → bind m k fs = (Raise x, fs1, t1).
Proof. unfold bind. intros ->. reflexivity. Qed.

(** The result of a run that succeeds (an empty dictionary otherwise). *)
Definition succeeds {A} (x : Res A * FS * list Event) : bool :=
  match x.1.1 with Ok _ => true | Raise _ => false end.

Definition result_of (x : Res (gmap string Value) * FS * list Event)
    : gmap string Value :=
  match x.1.1 with Ok r => r | Raise _ => ∅ end.

Lemma run_ok (x : Res (gmap string Value) * FS * list Event) :
  succeeds x = true → x = (Ok (result_of x), x.1.2, x.2).
Proof.
  destruct x as [[[r|e] fs] t]; [reflexivity|discriminate].
Qed.

Lemma run_split {A} (x : Res A * FS * list Event) o :
  x.1.1 = o → x = (o, x.1.2, x.2).
Proof. destruct x as [[o' fs] t]. simpl. intros ->. reflexivity. Qed.

Lemma run_eq {A} (o o' : Res A) (fs : FS) (t t' : list Event) :
  o = o' → t = t' → (o, fs, t) = (o', fs, t').
Proof. intros -> ->. reflexivity. Qed.

Lemma observe_run {A} e (f : FS → A) fs v :
  f fs = v → observe e f fs = (Ok v, fs, [e]).
Proof. unfold observe. intros ->. reflexivity. Qed.

(** ** The phases of [main], run *)

Definition msg_not_found (src : path) : string := "Source " +:+ src +:+ " not found".
Definition msg_not_readable (src : path) : string :=
  "Source " +:+ src +:+ " not readable".
Definition msg_no_dest (dest : path) : string :=
  "Destination " +:+ dest +:+ " doesn't exists".
Definition msg_is_dir (dest : path) : string :=
  "Source " +:+ dest +:+ " is directory, must be file".
Definition msg_append (src dest : path) : string :=
  "failed to append: " +:+ src +:+ " to " +:+ dest.
Definition msg_backup (fn backupdest : path) (x : Exc) : string :=
  "Could not make backup of " +:+ fn +:+ " to " +:+ backupdest +:+ ": "
  +:+ exc_text x.

Lemma check_source_run src fs :
  check_source src fs =
  if path_exists fs src then
    if access_R_OK fs src then (Ok tt, fs, [EExists src; EAccess src])
    else (Raise (FailJson (msg_not_readable src)), fs, [EExists src; EAccess src])
  else (Raise (FailJson (msg_not_found src)), fs, [EExists src]).
Proof.
  unfold check_source, bind, observe, when, fail_json, raise, ret.
  destruct (path_exists fs src); simpl; [|reflexivity].
  destruct (access_R_OK fs src); reflexivity.
Qed.

Lemma digest_from_file_run p h fs :
  digest_from_file p h fs =
  match stat fs p with
  | None => (Ok None, fs, [])
  | Some (Dir _) =>
      (Raise (FailJson ("attempted to take checksum of directory: " +:+ p)), fs, [])
  | Some (File c m) =>
      if readable m then (Ok (Some (h c)), fs, [EDigest p])
      else (Raise (IOError EACCES p), fs, [EDigest p])
  | Some (Link _) => (Raise (IOError ELOOP p), fs, [EDigest p])
  end.
Proof.
  unfold digest_from_file, bind, peek, perform, fail_json, raise, ret,
    path_exists, path_isdir.
  destruct (stat fs p) as [[c m|m|t]|] eqn:E; simpl; rewrite ?E; simpl;
    try reflexivity.
  - rewrite (read_file_stat fs p c m E). destruct (readable m); reflexivity.
  - exfalso. eapply stat_not_link, E.
Qed.

(** The events of lines 167-178 on a readable source file. *)
Definition source_events (env : Env) (src : path) : list Event :=
  [EExists src; EAccess src; EDigest src]
  ++ (if md5_available env then [EDigest src] else []).

Lemma source_digests_file env src fs c m :
  stat fs src = Some (File c m) → readable m = true →
  source_digests env src fs =
  (Ok (Some (sha1_hex env c),
       if md5_available env then Some (md5_hex env c) else None),
   fs,
   EDigest src :: (if md5_available env then [EDigest src] else [])).
Proof.
  intros E R.
  unfold source_digests, module_sha1, module_md5, bind, try_except, raise, ret.
  rewrite digest_from_file_run, E, R.
  destruct (md5_available env); simpl; [|reflexivity].
  rewrite digest_from_file_run, E, R. reflexivity.
Qed.

Lemma source_digests_dir env src fs m :
  stat fs src = Some (Dir m) →
  source_digests env src fs =
  (Raise (FailJson ("attempted to take checksum of directory: " +:+ src)), fs, []).
Proof.
  intros E. unfold source_digests, module_sha1, bind.
  rewrite digest_from_file_run, E. reflexivity.
Qed.

(** The events of lines 182-188 on a destination that leads to a file. *)
Definition dest_events (fs : FS) (dest : path) : list Event :=
  [EExists dest; EIslink dest]
  ++ (if path_islink fs dest then [ERealpath dest] else [])
  ++ [EIsdir (real_dest fs dest); EAccess (real_dest fs dest)]
  ++ (if access_R_OK fs dest then [EDigest (real_dest fs dest)] else []).

Lemma resolve_dest_missing env dest fs :
  stat fs dest = None →
  resolve_dest env dest fs = (Raise (FailJson (msg_no_dest dest)), fs, [EExists dest]).
Proof.
  intros E. unfold resolve_dest, bind, observe, path_exists. rewrite E. reflexivity.
Qed.

Lemma resolve_dest_dir env dest fs m :
  stat fs dest = Some (Dir m) →
  resolve_dest env dest fs =
  (Raise (FailJson (msg_is_dir (real_dest fs dest))), fs,
   [EExists dest; EIslink dest]
   ++ (if path_islink fs dest then [ERealpath dest] else [])
   ++ [EIsdir (real_dest fs dest)]).
Proof.
  intros E. destruct (stat_real_dest fs dest _ E) as (Hd & _ & Hn).
  destruct (own_name_stat fs _ _ Hd Hn) as (_ & Hs & _).
  unfold resolve_dest, bind, observe, path_exists, when, fail_json, raise, ret.
  rewrite E. simpl. unfold real_dest in *.
  destruct (path_islink fs dest); simpl;
    unfold path_isdir; rewrite Hs; reflexivity.
Qed.

Lemma resolve_dest_file env dest fs c m :
  stat fs dest = Some (File c m) →
  resolve_dest env dest fs =
  (Ok (real_dest fs dest, if readable m then Some (sha1_hex env c) else None),
   fs, dest_events fs dest).
Proof.
  intros E. destruct (stat_real_dest fs dest _ E) as (Hd & _ & Hn).
  destruct (own_name_stat fs _ _ Hd Hn) as (_ & Hs & _).
  unfold resolve_dest, dest_events, bind, observe, path_exists, when, ret,
    module_sha1.
  rewrite E. simpl. unfold access_R_OK at 2. rewrite E.
  unfold real_dest in *.
  destruct (path_islink fs dest), (readable m) eqn:R;
    unfold path_isdir, access_R_OK;
    run_with ltac:(rewrite ?Hs, ?R, ?digest_from_file_run); reflexivity.
Qed.

(** ** Writing *)

(** Putting a file or a directory where no link was leaves every path
    resolving as before. *)
Lemma follow_insert_nonlink (fs : FS) q n k p :
  (∀ t, fs !! q ≠ Some (Link t)) → (∀ t, n ≠ Link t) →
  follow (<[q := n]> fs) k p = follow fs k p.
Proof.
  intros Hq Hn. revert p. induction k as [|k IH]; intros p; simpl;
    destruct (decide (q = p)) as [->|Hne].
  - rewrite lookup_insert_eq.
    destruct n; [| |exfalso; eapply Hn; reflexivity];
      destruct (fs !! p) as [[| |t]|] eqn:E; try reflexivity;
      exfalso; eapply Hq; first [eassumption | reflexivity].
  - rewrite lookup_insert_ne by assumption. reflexivity.
  - rewrite lookup_insert_eq.
    destruct n; [| |exfalso; eapply Hn; reflexivity];
      destruct (fs !! p) as [[| |t]|] eqn:E; try reflexivity;
      exfalso; eapply Hq; first [eassumption | reflexivity].
  - rewrite lookup_insert_ne by assumption.
    destruct (fs !! p) as [[| |t]|]; try reflexivity. apply IH.
Qed.

Lemma write_file_ok (fs fs' : FS) p c :
  write_file fs p c = inr fs' →
  ∃ q m, follow fs MAXSYMLINKS p = Some q ∧ fs' = <[q := File c m]> fs ∧
         (fs !! q = None ∨ ∃ c0, fs !! q = Some (File c0 m)).
Proof.
  unfold write_file. destruct (follow fs MAXSYMLINKS p) as [q|]; [|discriminate].
  destruct (fs !! q) as [[c0 m| |]|] eqn:E; try discriminate.
  - destruct (writable m); [|discriminate]. intros [= <-]. eauto 10.
  - intros [= <-]. eauto 10.
Qed.

Lemma write_file_err (fs : FS) p c x :
  write_file fs p c = inl x → is_IOError x = true.
Proof.
  unfold write_file. intros H. repeat case_match; simplify_eq; reflexivity.
Qed.

Lemma read_file_err (fs : FS) p x :
  read_file fs p = inl x → is_IOError x = true.
Proof.
  unfold read_file. intros H. repeat case_match; simplify_eq; reflexivity.
Qed.

Lemma read_file_ok (fs : FS) p c :
  read_file fs p = inr c → ∃ m, stat fs p = Some (File c m) ∧ readable m = true.
Proof.
  unfold read_file, stat. destruct (follow fs MAXSYMLINKS p) as [q|]; [|discriminate].
  destruct (fs !! q) as [[c0 m| |]|]; try discriminate.
  destruct (readable m) eqn:R; [|discriminate]. intros [= <-]. eauto.
Qed.

(** A successful [copy2] writes one file, which is not the one copied and
    was a file or missing before, and touches nothing else. *)
Lemma copy2_ok (fs fs1 : FS) src dst :
  copy2 fs src dst = inr fs1 →
  ∃ q c m, follow fs MAXSYMLINKS (copy_target fs src dst) = Some q ∧
           stat fs src = Some (File c m) ∧
           fs1 = <[q := File c m]> fs ∧
           follow fs MAXSYMLINKS src ≠ Some q ∧
           (fs !! q = None ∨ ∃ c0 m0, fs !! q = Some (File c0 m0)).
Proof.
  unfold copy2. set (tgt := copy_target fs src dst).
  destruct (samefile fs src tgt) eqn:S; [discriminate|].
  destruct (read_file fs src) as [x|c] eqn:Rd; [discriminate|].
  destruct (read_file_ok _ _ _ Rd) as (m & Hs & _). rewrite Hs.
  destruct (write_file fs tgt c) as [x|fs'] eqn:W; [discriminate|].
  destruct (write_file_ok _ _ _ _ W) as (q & m0 & F & -> & Hq).
  intros [= <-]. exists q, c, m.
  assert (Hnl : ∀ t, fs !! q ≠ Some (Link t)).
  { intros t. eapply follow_not_link, F. }
  split; [exact F|]. split; [reflexivity|]. split.
  - unfold set_meta. rewrite follow_insert_nonlink by (assumption || discriminate).
    rewrite F, lookup_insert_eq. apply insert_insert_eq.
  - split.
    + intros Fs.
      assert (Hsq : fs !! q = Some (File c m)).
      { clear S. unfold stat in Hs. rewrite Fs in Hs. exact Hs. }
      unfold samefile in S. rewrite Fs, F, Hsq in S.
      rewrite bool_decide_eq_true_2 in S by reflexivity. discriminate.
    + destruct Hq as [Hq|[c0 Hq]]; eauto.
Qed.

Lemma copy2_err (fs : FS) src dst x :
  copy2 fs src dst = inl x → is_copy_error x = true.
Proof.
  unfold copy2. destruct (samefile fs src _); [intros [= <-]; reflexivity|].
  destruct (read_file fs src) as [y|c] eqn:Rd.
  - intros [= <-]. apply read_file_err in Rd. destruct y; try discriminate; reflexivity.
  - destruct (write_file fs _ c) as [y|fs'] eqn:W.
    + intros [= <-]. apply write_file_err in W. destruct y; try discriminate; reflexivity.
    + destruct (stat fs src) as [[| |]|]; discriminate.
Qed.

(** The name [backup_local] gives the copy. *)
Definition backup_path (env : Env) (fn : path) : path :=
  fn +:+ "." +:+ backup_ext env.

Lemma backup_path_truthy env fn : truthy (Some (backup_path env fn)) = true.
Proof. unfold truthy, backup_path. destruct fn; reflexivity. Qed.

Lemma backup_local_run env d fs n :
  fs !! d = Some n → (∀ t, n ≠ Link t) →
  backup_local env d fs =
  match copy2 fs d (backup_path env d) with
  | inl x => (Raise (FailJson (msg_backup d (backup_path env d) x)), fs,
              [EBackup d (backup_path env d)])
  | inr fs1 => (Ok (backup_path env d), fs1, [EBackup d (backup_path env d)])
  end.
Proof.
  intros Hd Hn. destruct (own_name_stat fs d n Hd Hn) as (_ & Hs & _).
  unfold backup_local, bind, peek, path_exists. rewrite Hs.
  fold (backup_path env d). unfold try_except, perform.
  destruct (copy2 fs d (backup_path env d)) as [x|fs1] eqn:C; simpl.
  - rewrite (copy2_err _ _ _ _ C). reflexivity.
  - reflexivity.
Qed.

Lemma append_to_file_run d s fs c m :
  fs !! d = Some (File c m) →
  append_to_file d s fs =
  if writable m then (Ok tt, <[d := File (c +:+ s) m]> fs, [EAppend d])
  else (Raise (IOError EACCES d), fs, [EAppend d]).
Proof.
  intros Hd.
  destruct (own_name_stat fs d _ Hd ltac:(discriminate)) as (F & _ & _).
  unfold append_to_file, perform, append_file. rewrite F, Hd.
  destruct (writable m); reflexivity.
Qed.

(** The backup leaves the file it copies as it is. *)
Lemma copy2_keeps_source (fs fs1 : FS) d n bk :
  fs !! d = Some n → (∀ t, n ≠ Link t) →
  copy2 fs d bk = inr fs1 → fs1 !! d = Some n.
Proof.
  intros Hd Hn C. destruct (own_name_stat fs d n Hd Hn) as (F & _ & _).
  destruct (copy2_ok _ _ _ _ C) as (q & c & m & _ & _ & -> & Hne & _).
  rewrite lookup_insert_ne; [assumption|]. intros ->. apply Hne, F.
Qed.

Lemma backup_and_append_run env d s backup fs c m :
  fs !! d = Some (File c m) →
  backup_and_append env d s backup fs =
  if backup then
    match copy2 fs d (backup_path env d) with
    | inl x => (Raise (FailJson (msg_backup d (backup_path env d) x)), fs,
                [EBackup d (backup_path env d)])
    | inr fs1 =>
        if writable m
        then (Ok (true, Some (backup_path env d)),
              <[d := File (c +:+ s) m]> fs1,
              [EBackup d (backup_path env d); EAppend d])
        else (Raise (IOError EACCES d), fs1,
              [EBackup d (backup_path env d); EAppend d])
    end
  else
    if writable m
    then (Ok (true, None), <[d := File (c +:+ s) m]> fs, [EAppend d])
    else (Raise (IOError EACCES d), fs, [EAppend d]).
Proof.
  intros Hd. unfold backup_and_append. destruct backup.
  - unfold bind at 1 2.
    rewrite (backup_local_run env d fs _ Hd) by discriminate.
    destruct (copy2 fs d (backup_path env d)) as [x|fs1] eqn:C; [reflexivity|].
    assert (Hd1 := copy2_keeps_source _ _ _ _ _ Hd ltac:(discriminate) C).
    unfold ret at 1. unfold bind.
    rewrite (append_to_file_run d s fs1 c m Hd1).
    destruct (writable m); reflexivity.
  - unfold bind, ret. rewrite (append_to_file_run d s fs c m Hd).
    destruct (writable m); reflexivity.
Qed.

(** ** The append step, run *)

(** What the handler at line 223 makes of the outcome of the [try] body,
    after the events [pre]. *)
Definition guarded (src d : path) (pre : list Event)
    (r : Res (bool * option string) * FS * list Event)
    : Res (bool * option string) * FS * list Event :=
  match r with
  | (Ok v, fs', t) => (Ok v, fs', pre ++ t)
  | (Raise x, fs', t) =>
      (Raise (if is_IOError x then FailJson (msg_append src d) else x), fs', pre ++ t)
  end.

Section AppendStep.
Context (env : Env) (src d : path) (fs : FS).
Context (sc dc : string) (sm dm : Meta).
Hypothesis Hsrc : stat fs src = Some (File sc sm).
Hypothesis Hread : readable sm = true.
Hypothesis Hd : fs !! d = Some (File dc dm).

Lemma dest_not_link : path_islink fs d = false.
Proof. unfold path_islink, lstat. rewrite Hd. reflexivity. Qed.

Lemma read_src : read_file fs src = inr sc.
Proof. rewrite (read_file_stat _ _ _ _ Hsrc), Hread. reflexivity. Qed.

Lemma read_dest :
  read_file fs d = if readable dm then inr dc else inl (IOError EACCES d).
Proof.
  apply read_file_stat.
  destruct (own_name_stat fs d _ Hd ltac:(discriminate)) as (_ & H & _). exact H.
Qed.

Lemma append_step_check backup force :
  append_step env src d backup force true fs =
  if readable dm
  then (Ok (negb (is_substring sc dc), None), fs, [EIslink d; EOpenR src; EOpenR d])
  else (Raise (FailJson (msg_append src d)), fs, [EIslink d; EOpenR src; EOpenR d]).
Proof.
  unfold append_step, try_except, append_body, bind, observe, perform, when, ret.
  rewrite dest_not_link, read_src. simpl.
  rewrite andb_false_r. simpl. rewrite read_dest.
  destruct (readable dm); simpl; [|reflexivity].
  destruct (is_substring sc dc); reflexivity.
Qed.

Lemma append_step_present backup :
  readable dm = true → is_substring sc dc = true →
  append_step env src d backup false false fs =
  (Ok (false, None), fs, [EIslink d; EOpenR src; EOpenR d]).
Proof.
  intros R S.
  unfold append_step, try_except, append_body, bind, observe, perform, when, ret.
  rewrite dest_not_link, read_src. simpl. rewrite read_dest, R. simpl.
  rewrite S. reflexivity.
Qed.

Lemma append_step_unreadable backup :
  readable dm = false →
  append_step env src d backup false false fs =
  (Raise (FailJson (msg_append src d)), fs, [EIslink d; EOpenR src; EOpenR d]).
Proof.
  intros R.
  unfold append_step, try_except, append_body, bind, observe, perform, when, ret.
  rewrite dest_not_link, read_src. simpl. rewrite read_dest, R. reflexivity.
Qed.

Lemma append_step_absent backup :
  readable dm = true → is_substring sc dc = false →
  append_step env src d backup false false fs =
  guarded src d [EIslink d; EOpenR src; EOpenR d]
    (backup_and_append env d sc backup fs).
Proof.
  intros R S.
  unfold append_step, try_except, append_body, bind, observe, perform, when, ret.
  rewrite dest_not_link, read_src. simpl. rewrite read_dest, R. simpl.
  rewrite S.
  destruct (backup_and_append env d sc backup fs) as [[[v|x] fs'] t]; simpl;
    [reflexivity|].
  unfold fail_json, raise. destruct (is_IOError x); simpl;
    rewrite ?app_nil_r; reflexivity.
Qed.

Lemma append_step_force backup :
  append_step env src d backup true false fs =
  guarded src d [EIslink d; EOpenR src] (backup_and_append env d sc backup fs).
Proof.
  unfold append_step, try_except, append_body, bind, observe, perform, when, ret.
  rewrite dest_not_link, read_src. simpl.
  destruct (backup_and_append env d sc backup fs) as [[[v|x] fs'] t]; simpl;
    [reflexivity|].
  unfold fail_json, raise. destruct (is_IOError x); simpl;
    rewrite ?app_nil_r; reflexivity.
Qed.
End AppendStep.

(** ** [main], run on a readable source file and a destination file *)

(** Lines 226-235 applied to the outcome of the append step, after the
    events [pre]. *)
Definition finish (c : AttrCollab) (ps : Params) (check : bool)
    (d src : path) (ds : option string * option string) (pre : list Event)
    (r : Res (bool * option string) * FS * list Event)
    : Res (gmap string Value) * FS * list Event :=
  match r with
  | (Ok cb, fs1, t1) =>
      (Ok (<["changed" := VBool (if attrs_differ c ps fs1 then true else fst cb)]>
             (res_args d src (snd ds) (fst ds) check (fst cb) (snd cb))),
       if attrs_differ c ps fs1
       then (if check then fs1 else attrs_apply c ps fs1)
       else fs1,
       pre ++ t1)
  | (Raise x, fs1, t1) => (Raise x, fs1, pre ++ t1)
  end.

Lemma main_run env c ps check fs sc sm dc dm :
  stat fs (p_src ps) = Some (File sc sm) → readable sm = true →
  stat fs (expanduser env (p_dest ps)) = Some (File dc dm) →
  main env c ps check fs =
  finish c ps check (real_dest fs (expanduser env (p_dest ps))) (p_src ps)
    (Some (sha1_hex env sc),
     if md5_available env then Some (md5_hex env sc) else None)
    (source_events env (p_src ps) ++ dest_events fs (expanduser env (p_dest ps)))
    (append_step env (p_src ps) (real_dest fs (expanduser env (p_dest ps)))
       (p_backup ps) (p_force ps) check fs).
Proof.
  intros Hs R Hd. unfold main.
  rewrite (bind_ok _ _ fs tt fs [EExists (p_src ps); EAccess (p_src ps)]).
  2:{ rewrite check_source_run. unfold path_exists, access_R_OK. rewrite Hs, R.
      reflexivity. }
  rewrite (bind_ok _ _ fs _ fs _ (source_digests_file env _ fs sc sm Hs R)).
  rewrite (bind_ok _ _ fs _ fs _ (resolve_dest_file env _ fs dc dm Hd)).
  simpl fst. simpl snd. unfold bind, finish, source_events, dest_events.
  destruct (append_step _ _ _ _ _ _ fs) as [[[cb|x] fs1] t1]; simpl.
  - unfold set_fs_attributes_if_different, ret.
    destruct (attrs_differ c ps fs1), (md5_available env),
      (path_islink fs (expanduser env (p_dest ps))),
      (access_R_OK fs (expanduser env (p_dest ps)));
      simpl; rewrite ?app_nil_r; reflexivity.
  - destruct (md5_available env),
      (path_islink fs (expanduser env (p_dest ps))),
      (access_R_OK fs (expanduser env (p_dest ps))); reflexivity.
Qed.

(** ** [main], stopped by a precondition *)

Lemma main_source_missing env c ps check fs :
  path_exists fs (p_src ps) = false →
  main env c ps check fs =
  (Raise (FailJson (msg_not_found (p_src ps))), fs, [EExists (p_src ps)]).
Proof.
  intros E. unfold main. apply bind_raise. rewrite check_source_run, E. reflexivity.
Qed.

Lemma main_source_unreadable env c ps check fs :
  path_exists fs (p_src ps) = true → access_R_OK fs (p_src ps) = false →
  main env c ps check fs =
  (Raise (FailJson (msg_not_readable (p_src ps))), fs,
   [EExists (p_src ps); EAccess (p_src ps)]).
Proof.
  intros E A. unfold main. apply bind_raise. rewrite check_source_run, E, A.
  reflexivity.
Qed.

Lemma main_source_dir env c ps check fs m :
  stat fs (p_src ps) = Some (Dir m) → readable m = true →
  main env c ps check fs =
  (Raise (FailJson ("attempted to take checksum of directory: " +:+ p_src ps)),
   fs, [EExists (p_src ps); EAccess (p_src ps)]).
Proof.
  intros E R. unfold main.
  rewrite (bind_ok _ _ fs tt fs [EExists (p_src ps); EAccess (p_src ps)]).
  2:{ rewrite check_source_run. unfold path_exists, access_R_OK. rewrite E, R.
      reflexivity. }
  rewrite (bind_raise _ _ fs _ fs _ (source_digests_dir env _ fs m E)).
  reflexivity.
Qed.

Lemma main_dest_missing env c ps check fs sc sm :
  stat fs (p_src ps) = Some (File sc sm) → readable sm = true →
  stat fs (expanduser env (p_dest ps)) = None →
  main env c ps check fs =
  (Raise (FailJson (msg_no_dest (expanduser env (p_dest ps)))), fs,
   source_events env (p_src ps) ++ [EExists (expanduser env (p_dest ps))]).
Proof.
  intros Hs R Hd. unfold main.
  rewrite (bind_ok _ _ fs tt fs [EExists (p_src ps); EAccess (p_src ps)]).
  2:{ rewrite check_source_run. unfold path_exists, access_R_OK. rewrite Hs, R.
      reflexivity. }
  rewrite (bind_ok _ _ fs _ fs _ (source_digests_file env _ fs sc sm Hs R)).
  rewrite (bind_raise _ _ fs _ fs _ (resolve_dest_missing env _ fs Hd)).
  unfold source_events. destruct (md5_available env); reflexivity.
Qed.

Lemma main_dest_dir env c ps check fs sc sm m :
  stat fs (p_src ps) = Some (File sc sm) → readable sm = true →
  stat fs (expanduser env (p_dest ps)) = Some (Dir m) →
  main env c ps check fs =
  (Raise (FailJson (msg_is_dir (real_dest fs (expanduser env (p_dest ps))))), fs,
   source_events env (p_src ps)
   ++ [EExists (expanduser env (p_dest ps)); EIslink (expanduser env (p_dest ps))]
   ++ (if path_islink fs (expanduser env (p_dest ps))
       then [ERealpath (expanduser env (p_dest ps))] else [])
   ++ [EIsdir (real_dest fs (expanduser env (p_dest ps)))]).
Proof.
  intros Hs R Hd. unfold main.
  rewrite (bind_ok _ _ fs tt fs [EExists (p_src ps); EAccess (p_src ps)]).
  2:{ rewrite check_source_run. unfold path_exists, access_R_OK. rewrite Hs, R.
      reflexivity. }
  rewrite (bind_ok _ _ fs _ fs _ (source_digests_file env _ fs sc sm Hs R)).
  rewrite (bind_raise _ _ fs _ fs _ (resolve_dest_dir env _ fs m Hd)).
  unfold source_events.
  destruct (md5_available env), (path_islink fs (expanduser env (p_dest ps)));
    reflexivity.
Qed.

(** Events that change the file system. *)
Definition is_mutation (e : Event) : bool :=
  match e with
  | EUnlink _ | EOpenW _ | EBackup _ _ | EAppend _ => true
  | _ => false
  end.

(** Events that open a file and read it. *)
Definition is_read (e : Event) : bool :=
  match e with
  | EDigest _ | EOpenR _ | EBackup _ _ => true
  | _ => false
  end.

(** Every run of [main] is stopped by a precondition, having changed
    nothing, or reaches the append step with a readable source file and a
    destination file. *)
Lemma main_cases env c ps check fs :
  (∃ msg t, main env c ps check fs = (Raise (FailJson msg), fs, t) ∧
            Forall (λ e, is_mutation e = false) t ∧
            Forall (λ e, e ≠ EOpenR (real_dest fs (expanduser env (p_dest ps)))) t)
  ∨ (∃ sc sm dc dm,
       stat fs (p_src ps) = Some (File sc sm) ∧ readable sm = true ∧
       stat fs (expanduser env (p_dest ps)) = Some (File dc dm)).
Proof.
  destruct (stat fs (p_src ps)) as [[sc sm|m|t]|] eqn:Hs.
  - destruct (readable sm) eqn:R.
    + destruct (stat fs (expanduser env (p_dest ps))) as [[dc dm|m|t]|] eqn:Hd.
      * right. eauto 10.
      * left. do 2 eexists. split; [eapply main_dest_dir; eassumption|].
        unfold source_events.
        destruct (md5_available env), (path_islink fs _);
          split; repeat constructor; discriminate.
      * exfalso. eapply stat_not_link, Hd.
      * left. do 2 eexists. split; [eapply main_dest_missing; eassumption|].
        unfold source_events.
        destruct (md5_available env); split; repeat constructor; discriminate.
    + left. do 2 eexists. split.
      * apply main_source_unreadable; unfold path_exists, access_R_OK;
          rewrite Hs; [reflexivity|exact R].
      * split; repeat constructor; discriminate.
  - destruct (readable m) eqn:R.
    + left. do 2 eexists. split; [eapply main_source_dir; eassumption|].
      split; repeat constructor; discriminate.
    + left. do 2 eexists. split.
      * apply main_source_unreadable; unfold path_exists, access_R_OK;
          rewrite Hs; [reflexivity|exact R].
      * split; repeat constructor; discriminate.
  - exfalso. eapply stat_not_link, Hs.
  - left. do 2 eexists. split.
    + apply main_source_missing. unfold path_exists. rewrite Hs. reflexivity.
    + split; repeat constructor; discriminate.
Qed.

(** ** The result dictionary *)

Lemma res_args_dest d src md5 sha check changed bf :
  res_args d src md5 sha check changed bf !! "dest" = Some (VStr d).
Proof. unfold res_args. destruct (truthy bf); reflexivity. Qed.

Lemma res_args_md5sum d src md5 sha check changed bf :
  res_args d src md5 sha check changed bf !! "md5sum" = Some (of_opt md5).
Proof. unfold res_args. destruct (truthy bf); reflexivity. Qed.

Lemma res_args_checksum d src md5 sha check changed bf :
  res_args d src md5 sha check changed bf !! "checksum" = Some (of_opt sha).
Proof. unfold res_args. destruct (truthy bf); reflexivity. Qed.

Lemma res_args_backup_file d src md5 sha check changed bf :
  res_args d src md5 sha check changed bf !! "backup_file" =
  if truthy bf then Some (of_opt bf) else None.
Proof. unfold res_args. destruct (truthy bf); reflexivity. Qed.

Lemma finish_ok c ps check d src ds pre r0 r fs' t :
  finish c ps check d src ds pre r0 = (Ok r, fs', t) →
  ∃ cb fs1 t1,
    r0 = (Ok cb, fs1, t1) ∧ t = pre ++ t1 ∧
    r = <["changed" := VBool (if attrs_differ c ps fs1 then true else fst cb)]>
          (res_args d src (snd ds) (fst ds) check (fst cb) (snd cb)) ∧
    fs' = (if attrs_differ c ps fs1
           then (if check then fs1 else attrs_apply c ps fs1) else fs1).
Proof.
  unfold finish. destruct r0 as [[[cb|x] fs1] t1]; [|discriminate].
  intros [= <- <- <-]. eauto 10.
Qed.

(** ** Precondition failures *)

(** The four precondition failures of the specification, when each
    applies, and its message. *)
Inductive PreFailure :=
| SourceMissing
| SourceUnreadable
| DestMissing
| DestIsDirectory.

Definition source_ok (fs : FS) (src : path) : bool :=
  match stat fs src with
  | Some (File _ m) => readable m
  | _ => false
  end.

Definition pre_failure (fs : FS) (src dest : path) (k : PreFailure) : bool :=
  match k with
  | SourceMissing => negb (path_exists fs src)
  | SourceUnreadable => path_exists fs src && negb (access_R_OK fs src)
  | DestMissing => source_ok fs src && negb (path_exists fs dest)
  | DestIsDirectory => source_ok fs src && path_isdir fs dest
  end.

Definition pre_message (fs : FS) (src dest : path) (k : PreFailure) : string :=
  match k with
  | SourceMissing => msg_not_found src
  | SourceUnreadable => msg_not_readable src
  | DestMissing => msg_no_dest dest
  | DestIsDirectory => msg_is_dir (real_dest fs dest)
  end.

(** Whether a failure is one of the two about the source. *)
Definition about_source (k : PreFailure) : bool :=
  match k with
  | SourceMissing | SourceUnreadable => true
  | _ => false
  end.

Definition fs_empty : FS := ∅.

Definition fs_secret : FS :=
  <["/tmp/source" := File alias_line {| mode := 0 |}]>
    {["/home/u/.bashrc" := File alias_line rw]}.

Definition fs_no_dest : FS := {["/tmp/source" := File alias_line rw]}.

Definition fs_dest_dir : FS :=
  <["/tmp/source" := File alias_line rw]> {["/home/u/.bashrc" := Dir {| mode := 493 |}]}.

(** C6. Each precondition failure (source missing, source not readable,
    destination missing, destination leading to a directory) ends the run
    with its own message and leaves the file system as it was; when the
    failure is about the source, the run has done nothing but test the
    source for existence and readability, so nothing of the destination has
    been looked at. *)
Theorem precondition_failures env c ps check fs k :
  pre_failure fs (p_src ps) (expanduser env (p_dest ps)) k = true →
  ∃ t,
    main env c ps check fs =
      (Raise (FailJson (pre_message fs (p_src ps) (expanduser env (p_dest ps)) k)),
       fs, t) ∧
    Forall (λ e, is_mutation e = false) t ∧
    (about_source k = true →
     Forall (λ e, e = EExists (p_src ps) ∨ e = EAccess (p_src ps)) t).
Proof.
  destruct k; simpl; intros H.
  - apply negb_true_iff in H. eexists. split; [apply main_source_missing, H|].
    split; [|intros _]; repeat constructor.
  - apply andb_true_iff in H as [E A]. apply negb_true_iff in A.
    eexists. split; [apply main_source_unreadable; assumption|].
    split; [repeat constructor|intros _].
    repeat (constructor; auto).
  - apply andb_true_iff in H as [S D]. apply negb_true_iff in D.
    unfold source_ok in S.
    destruct (stat fs (p_src ps)) as [[sc sm| |]|] eqn:Hs; try discriminate.
    unfold path_exists in D.
    destruct (stat fs (expanduser env (p_dest ps))) eqn:Hd; [discriminate|].
    eexists. split; [eapply main_dest_missing; eassumption|].
    split; [|discriminate]. unfold source_events.
    destruct (md5_available env); repeat constructor.
  - apply andb_true_iff in H as [S D]. unfold source_ok in S.
    destruct (stat fs (p_src ps)) as [[sc sm| |]|] eqn:Hs; try discriminate.
    unfold path_isdir in D.
    destruct (stat fs (expanduser env (p_dest ps))) as [[|m|]|] eqn:Hd;
      try discriminate.
    eexists. split; [eapply main_dest_dir; eassumption|].
    split; [|discriminate]. unfold source_events.
    destruct (md5_available env), (path_islink fs _); repeat constructor.
Qed.

Lemma precondition_failures_witness :
  (∃ t, main env0 mode_collab (ps_alias true) false fs_empty =
          (Raise (FailJson "Source /tmp/source not found"), fs_empty, t)) ∧
  (∃ t, main env0 mode_collab (ps_alias true) false fs_secret =
          (Raise (FailJson "Source /tmp/source not readable"), fs_secret, t)) ∧
  (∃ t, main env0 mode_collab (ps_alias true) false fs_no_dest =
          (Raise (FailJson "Destination /home/u/.bashrc doesn't exists"),
           fs_no_dest, t)) ∧
  (∃ t, main env0 mode_collab (ps_alias true) false fs_dest_dir =
          (Raise (FailJson "Source /home/u/.bashrc is directory, must be file"),
           fs_dest_dir, t)).
Proof.
  repeat split.
  - destruct (precondition_failures env0 mode_collab (ps_alias true) false
                fs_empty SourceMissing) as (t & H & _); [reflexivity|].
    exists t. exact H.
  - destruct (precondition_failures env0 mode_collab (ps_alias true) false
                fs_secret SourceUnreadable) as (t & H & _); [reflexivity|].
    exists t. exact H.
  - destruct (precondition_failures env0 mode_collab (ps_alias true) false
                fs_no_dest DestMissing) as (t & H & _); [reflexivity|].
    exists t. exact H.
  - destruct (precondition_failures env0 mode_collab (ps_alias true) false
                fs_dest_dir DestIsDirectory) as (t & H & _); [reflexivity|].
    exists t. exact H.
Defined.

(** ** The order of link resolution and directory check *)

(** Lines 182-190 in the order the specification describes: the directory
    test on the destination as supplied, and the link resolved after it. *)
Definition resolve_dest_dir_first (env : Env) (dest : path)
    : M (path * option string) :=
  e <- observe (EExists dest) (λ fs, path_exists fs dest) ;;
  if e then
    d <- observe (EIsdir dest) (λ fs, path_isdir fs dest) ;;
    when d (fail_json ("Source " +:+ dest +:+ " is directory, must be file")) ;;;
    l <- observe (EIslink dest) (λ fs, path_islink fs dest) ;;
    dest <- (if l then observe (ERealpath dest) (λ fs, path_realpath fs dest)
             else ret dest) ;;
    a <- observe (EAccess dest) (λ fs, access_R_OK fs dest) ;;
    checksum_dest <- (if a then module_sha1 env dest else ret None) ;;
    ret (dest, checksum_dest)
  else fail_json ("Destination " +:+ dest +:+ " doesn't exists").

Definition fs_link_to_dir : FS :=
  <["/tmp/source" := File alias_line rw]>
    (<["/srv/current" := Link "/srv/releases"]>
       {["/srv/releases" := Dir {| mode := 493 |}]}).

Definition ps_link_to_dir : Params :=
  {| p_src := "/tmp/source"; p_dest := "/srv/current"; p_backup := false;
     p_force := true; p_follow := false; p_mode := None |}.

Definition fs_link : FS :=
  <["/tmp/source" := File "export EDITOR=vi" rw]>
    (<["/home/u/.bashrc" := Link "/home/u/dotfiles/bashrc"]>
       {["/home/u/dotfiles/bashrc" := File "# bashrc" rw]}).

Definition ps_bashrc (backup force : bool) : Params :=
  {| p_src := "/tmp/source"; p_dest := "/home/u/.bashrc"; p_backup := backup;
     p_force := force; p_follow := false; p_mode := None |}.

(** C5, as stated, fails: on a destination that is a link to a directory
    the run resolves the link first and tests the real path; the supplied
    path is never tested for being a directory, and the message names the
    real path. In the order the claim describes, the supplied path would be
    tested and named. *)
Lemma dir_check_not_before_resolution :
  main env0 mode_collab ps_link_to_dir false fs_link_to_dir =
    (Raise (FailJson "Source /srv/releases is directory, must be file"),
     fs_link_to_dir,
     [EExists "/tmp/source"; EAccess "/tmp/source"; EDigest "/tmp/source";
      EDigest "/tmp/source"; EExists "/srv/current"; EIslink "/srv/current";
      ERealpath "/srv/current"; EIsdir "/srv/releases"]) ∧
  resolve_dest_dir_first env0 "/srv/current" fs_link_to_dir =
    (Raise (FailJson "Source /srv/current is directory, must be file"),
     fs_link_to_dir, [EExists "/srv/current"; EIsdir "/srv/current"]) ∧
  resolve_dest env0 "/srv/current" fs_link_to_dir
  ≠ resolve_dest_dir_first env0 "/srv/current" fs_link_to_dir.
Proof.
  split.
  { rewrite (main_dest_dir env0 mode_collab ps_link_to_dir false fs_link_to_dir
               alias_line rw {| mode := 493 |}
               ltac:(vm_compute; reflexivity) ltac:(vm_compute; reflexivity)
               ltac:(vm_compute; reflexivity)).
    apply run_eq; vm_compute; reflexivity. }
  split.
  { assert (E1 : path_exists fs_link_to_dir "/srv/current" = true)
      by (vm_compute; reflexivity).
    assert (E2 : path_isdir fs_link_to_dir "/srv/current" = true)
      by (vm_compute; reflexivity).
    unfold resolve_dest_dir_first, bind, observe. cbv beta iota.
    rewrite E1. cbv beta iota. rewrite E2. reflexivity. }
  intros E. apply (f_equal (λ x, x.1.1)) in E. vm_compute in E. discriminate.
Qed.

(** C5, amended. When the destination exists and is a link, the link is
    resolved first; the directory test is applied to the real path, a
    failure names the real path, and otherwise the real path is the
    destination of everything that follows. *)
Theorem resolution_before_dir_check env dest fs :
  path_exists fs dest = true → path_islink fs dest = true →
  ∃ r t,
    resolve_dest env dest fs =
      (r, fs,
       [EExists dest; EIslink dest; ERealpath dest; EIsdir (path_realpath fs dest)]
       ++ t) ∧
    (path_isdir fs dest = true →
     r = Raise (FailJson (msg_is_dir (path_realpath fs dest))) ∧ t = []) ∧
    (path_isdir fs dest = false →
     ∃ cs, r = Ok (path_realpath fs dest, cs)).
Proof.
  intros E L. unfold path_exists in E.
  destruct (stat fs dest) as [[dc dm|m|t]|] eqn:Hd; try discriminate.
  - rewrite (resolve_dest_file env dest fs dc dm Hd).
    unfold dest_events, real_dest, path_isdir. rewrite L, Hd.
    do 2 eexists. split; [reflexivity|]. split; [discriminate|eauto].
  - rewrite (resolve_dest_dir env dest fs m Hd).
    unfold real_dest, path_isdir. rewrite L, Hd.
    exists (Raise (FailJson (msg_is_dir (path_realpath fs dest)))), [].
    split; [reflexivity|]. split; [auto|discriminate].
  - exfalso. eapply stat_not_link, Hd.
Qed.

Lemma resolution_before_dir_check_witness :
  ∃ r t,
    resolve_dest env0 "/srv/current" fs_link_to_dir =
      (r, fs_link_to_dir,
       [EExists "/srv/current"; EIslink "/srv/current"; ERealpath "/srv/current";
        EIsdir (path_realpath fs_link_to_dir "/srv/current")] ++ t).
Proof.
  destruct (resolution_before_dir_check env0 "/srv/current" fs_link_to_dir)
    as (r & t & H & _); [reflexivity|reflexivity|].
  exists r, t. exact H.
Defined.

(** ** The destination reported *)

(** C9. When the destination supplied is a link and the run succeeds, the
    [dest] field of the result is the real path the link leads to, which is
    not the path supplied. *)
Theorem result_dest_is_real_path env c ps check fs r fs' t :
  path_islink fs (expanduser env (p_dest ps)) = true →
  main env c ps check fs = (Ok r, fs', t) →
  r !! "dest" = Some (VStr (path_realpath fs (expanduser env (p_dest ps)))) ∧
  path_realpath fs (expanduser env (p_dest ps)) ≠ expanduser env (p_dest ps) ∧
  path_islink fs (path_realpath fs (expanduser env (p_dest ps))) = false ∧
  stat fs (path_realpath fs (expanduser env (p_dest ps)))
  = stat fs (expanduser env (p_dest ps)).
Proof.
  intros L H.
  destruct (main_cases env c ps check fs) as [(msg & t0 & H0 & _)|
    (sc & sm & dc & dm & Hs & R & Hd)]; [congruence|].
  rewrite (main_run env c ps check fs sc sm dc dm Hs R Hd) in H.
  apply finish_ok in H as (cb & fs1 & t1 & _ & _ & -> & _).
  destruct (stat_real_dest fs _ _ Hd) as (Hr & _ & Hn).
  destruct (own_name_stat fs _ _ Hr Hn) as (_ & Hst & Hl).
  unfold real_dest in *. rewrite L in *.
  split; [rewrite lookup_insert_ne by discriminate; apply res_args_dest|].
  split; [intros Heq; rewrite Heq in Hl; congruence|].
  split; [exact Hl|congruence].
Qed.

Lemma result_dest_is_real_path_witness :
  ∃ r fs' t,
    main env0 mode_collab (ps_bashrc false true) false fs_link = (Ok r, fs', t) ∧
    r !! "dest" = Some (VStr "/home/u/dotfiles/bashrc").
Proof.
  pose proof (run_ok (main env0 mode_collab (ps_bashrc false true) false fs_link)
                ltac:(vm_compute; reflexivity)) as H.
  do 3 eexists. split; [exact H|].
  destruct (result_dest_is_real_path env0 mode_collab (ps_bashrc false true)
              false fs_link _ _ _ ltac:(vm_compute; reflexivity) H) as (D & _).
  etrans; [exact D|]. vm_compute. reflexivity.
Defined.

(** ** What a write leaves in place *)

Lemma file_content_insert_dest (fs : FS) p d c m c' m' :
  follow fs MAXSYMLINKS p = Some d → fs !! d = Some (File c m) →
  file_content (<[d := File c' m']> fs) p = Some c'.
Proof.
  intros F Hd. unfold file_content, stat.
  rewrite follow_insert_nonlink by (intros t; congruence).
  rewrite F, lookup_insert_eq. reflexivity.
Qed.

Lemma file_content_insert_other (fs : FS) p d q n :
  (∀ t, fs !! q ≠ Some (Link t)) → (∀ t, n ≠ Link t) →
  follow fs MAXSYMLINKS p = Some d → d ≠ q →
  file_content (<[q := n]> fs) p = file_content fs p.
Proof.
  intros Hq Hn F Hne. unfold file_content, stat.
  rewrite follow_insert_nonlink by assumption.
  rewrite F, lookup_insert_ne by congruence. reflexivity.
Qed.

(** The file system once the attribute collaborator has run. *)
Definition after_attrs (c : AttrCollab) (ps : Params) (check : bool) (fs1 : FS) : FS :=
  if attrs_differ c ps fs1
  then (if check then fs1 else attrs_apply c ps fs1)
  else fs1.

Lemma after_attrs_data c ps check fs1 q :
  keeps_data c →
  data_of <$> (after_attrs c ps check fs1 !! q) = data_of <$> (fs1 !! q).
Proof.
  intros K. unfold after_attrs.
  destruct (attrs_differ c ps fs1), check; try reflexivity. apply K.
Qed.

Lemma after_attrs_content c ps check fs1 p :
  keeps_data c → file_content (after_attrs c ps check fs1) p = file_content fs1 p.
Proof.
  intros K. apply file_content_same_data. intros q. apply after_attrs_data, K.
Qed.

Lemma copy2_unreadable (fs : FS) d bk c m :
  stat fs d = Some (File c m) → readable m = false → ∃ x, copy2 fs d bk = inl x.
Proof.
  intros Hs R. unfold copy2. destruct (samefile fs d _); [eauto|].
  rewrite (read_file_stat _ _ _ _ Hs), R. eauto.
Qed.

Lemma set_meta_data (fs : FS) p m q :
  data_of <$> (set_meta fs p m !! q) = data_of <$> (fs !! q).
Proof.
  unfold set_meta. destruct (follow fs MAXSYMLINKS p) as [r|]; [|reflexivity].
  destruct (fs !! r) as [[c0 m0|m0|]|] eqn:E; try reflexivity;
    (destruct (decide (r = q)) as [->|Hne];
     [rewrite lookup_insert_eq, E; reflexivity
     |rewrite lookup_insert_ne by assumption; reflexivity]).
Qed.

Lemma mode_collab_keeps_data : keeps_data mode_collab.
Proof.
  intros ps fs q. simpl. unfold mode_apply.
  destruct (p_mode ps); [apply set_meta_data|reflexivity].
Qed.

Lemma append_cons a (s b : string) : String a s +:+ b = String a (s +:+ b).
Proof. reflexivity. Qed.

Lemma append_nil (b : string) : "" +:+ b = b.
Proof. reflexivity. Qed.

(** [is_substring] is containment: a prefix of some suffix. *)
Lemma prefix_app (s d : string) :
  String.prefix s d = true ↔ ∃ b, d = s +:+ b.
Proof.
  revert d. induction s as [|a s IH]; intros d; simpl.
  - destruct d; simpl; (split; [intros _; eexists; reflexivity|reflexivity]).
  - destruct d as [|a' d]; simpl.
    + split; [discriminate|intros [b H]; discriminate].
    + destruct (Ascii.ascii_dec a a') as [->|Hne].
      * rewrite IH. split; intros [b H]; exists b;
          rewrite append_cons in *; congruence.
      * split; [discriminate|intros [b H]; rewrite append_cons in H; congruence].
Qed.

Lemma is_substring_nil (s : string) : is_substring s "" = String.prefix s "".
Proof. unfold is_substring. apply orb_false_r. Qed.

Lemma is_substring_cons (s : string) x d :
  is_substring s (String x d) = String.prefix s (String x d) || is_substring s d.
Proof. reflexivity. Qed.

Lemma is_substring_spec (s d : string) :
  is_substring s d = true ↔ ∃ a b, d = a +:+ s +:+ b.
Proof.
  induction d as [|x d IH].
  - rewrite is_substring_nil, prefix_app. split.
    + intros [b H]. exists "", b. exact H.
    + intros (a & b & H). destruct a; [exists b; exact H|discriminate].
  - rewrite is_substring_cons, orb_true_iff, prefix_app, IH. split.
    + intros [[b H]|(a & b & H)].
      * exists "", b. exact H.
      * exists (String x a), b. rewrite append_cons. congruence.
    + intros (a & b & H). destruct a as [|y a].
      * left. exists b. exact H.
      * right. exists a, b. rewrite append_cons in H. congruence.
Qed.

Lemma msg_backup_not_append fn bk x src d : msg_backup fn bk x ≠ msg_append src d.
Proof. unfold msg_backup, msg_append. rewrite !append_cons. discriminate. Qed.

(** ** A destination that cannot be read *)

Definition fs_write_only : FS :=
  <["/tmp/source" := File "export EDITOR=vi" rw]>
    {["/home/u/.bashrc" := File "# bashrc" {| mode := 128 |}]}.

(** Whether an event reads the content of the file [d]: a digest, an
    open for reading, or a backup copy of it. *)
Definition reads_file (d : path) (e : Event) : bool :=
  match e with
  | EDigest p | EOpenR p | EBackup p _ => String.eqb p d
  | _ => false
  end.

(** C10, as stated, fails: with [force] and outside check mode the content
    of the destination is read when a backup is asked for. On a
    destination that can be written but not read, [backup_local] copies
    it, the copy is refused, and the run fails with the message of the
    backup, the destination left as it was. *)
Lemma backup_reads_unreadable_destination :
  p_force (ps_bashrc true true) = true ∧
  access_R_OK fs_write_only "/home/u/.bashrc" = false ∧
  ∃ fs' t,
    main env0 mode_collab (ps_bashrc true true) false fs_write_only =
      (Raise (FailJson
         "Could not make backup of /home/u/.bashrc to /home/u/.bashrc.2015-02-12@22:09:33~: [Errno 13] Permission denied: '/home/u/.bashrc'"),
       fs', t) ∧
    EBackup "/home/u/.bashrc" "/home/u/.bashrc.2015-02-12@22:09:33~" ∈ t ∧
    reads_file "/home/u/.bashrc"
      (EBackup "/home/u/.bashrc" "/home/u/.bashrc.2015-02-12@22:09:33~") = true ∧
    file_content fs' "/home/u/.bashrc" = Some "# bashrc".
Proof.
  split; [reflexivity|]. split; [vm_compute; reflexivity|].
  do 2 eexists. split; [apply run_split; vm_compute; reflexivity|].
  split; [vm_compute; repeat constructor|]. split; vm_compute; reflexivity.
Qed.

(** C10, amended. A destination file that cannot be read stops no
    precondition. In check mode, or without [force], the run opens the
    destination for reading and fails with the message of the append
    step. With [force] and outside check mode [main] itself never opens
    or digests the destination. Without [backup] nothing reads it, and a
    destination that can be written is appended to. With [backup] the
    backup copy reads it: the run fails with the message of the backup,
    which is not that of the append step, and changes nothing. *)
Theorem unreadable_destination env c ps check fs sc sm dc dm :
  keeps_data c →
  stat fs (p_src ps) = Some (File sc sm) → readable sm = true →
  stat fs (expanduser env (p_dest ps)) = Some (File dc dm) →
  readable dm = false →
  let src := p_src ps in
  let d := real_dest fs (expanduser env (p_dest ps)) in
  (check = true ∨ p_force ps = false →
   ∃ t, main env c ps check fs = (Raise (FailJson (msg_append src d)), fs, t) ∧
        EOpenR d ∈ t) ∧
  (check = false → p_force ps = true → writable dm = true →
   (p_backup ps = false →
    ∃ r fs' t,
      main env c ps check fs = (Ok r, fs', t) ∧
      Forall (λ e, reads_file d e = false) t ∧
      r !! "changed" = Some (VBool true) ∧
      file_content fs' (expanduser env (p_dest ps)) = Some (dc +:+ sc)) ∧
   (p_backup ps = true →
    ∃ x t,
      main env c ps check fs =
        (Raise (FailJson (msg_backup d (backup_path env d) x)), fs, t) ∧
      msg_backup d (backup_path env d) x ≠ msg_append src d ∧
      Forall (λ e, e ≠ EOpenR d ∧ e ≠ EDigest d) t ∧
      EBackup d (backup_path env d) ∈ t ∧
      reads_file d (EBackup d (backup_path env d)) = true)).
Proof.
  intros K Hs R Hd Rd src d.
  destruct (stat_real_dest fs _ _ Hd) as (Hr & F & Hn). fold d in Hr, F.
  pose proof (main_run env c ps check fs sc sm dc dm Hs R Hd) as Hm.
  fold d src in Hm.
  assert (Hne : src ≠ d).
  { intros E. destruct (own_name_stat fs d _ Hr Hn) as (_ & Hsd & _).
    rewrite <- E in Hsd. unfold src in Hsd. congruence. }
  assert (Hacc : access_R_OK fs (expanduser env (p_dest ps)) = false).
  { unfold access_R_OK. rewrite Hd. exact Rd. }
  split.
  - intros Hc. assert (Hstep : append_step env src d (p_backup ps) (p_force ps) check fs
      = (Raise (FailJson (msg_append src d)), fs, [EIslink d; EOpenR src; EOpenR d])).
    { destruct Hc as [->| ->].
      - rewrite (append_step_check env src d fs sc dc sm dm Hs R Hr), Rd. reflexivity.
      - destruct check.
        + rewrite (append_step_check env src d fs sc dc sm dm Hs R Hr), Rd. reflexivity.
        + apply (append_step_unreadable env src d fs sc dc sm dm Hs R Hr), Rd. }
    rewrite Hm, Hstep. unfold finish. eexists. split; [reflexivity|].
    apply elem_of_app. right. repeat constructor.
  - intros -> Hf W. rewrite Hm, Hf.
    rewrite (append_step_force env src d fs sc dc sm dm Hs R Hr).
    rewrite (backup_and_append_run env d sc _ fs dc dm Hr), W.
    assert (Hsd : String.eqb src d = false) by (apply String.eqb_neq, Hne).
    assert (Hpre : Forall (λ e, reads_file d e = false)
                     (source_events env src ++ dest_events fs (expanduser env (p_dest ps)))).
    { unfold source_events, dest_events. rewrite Hacc.
      destruct (md5_available env), (path_islink fs _); simpl;
        repeat (constructor; [first [exact Hsd|reflexivity]|]); constructor. }
    split; intros B; rewrite B.
    + unfold guarded, finish. cbn [fst snd]. do 3 eexists. split; [reflexivity|].
      split.
      { rewrite Forall_app. split; [exact Hpre|].
        repeat (constructor; [first [exact Hsd|reflexivity]|]); constructor. }
      split; [rewrite lookup_insert_eq; destruct (attrs_differ _ _ _); reflexivity|].
      fold (after_attrs c ps false (<[d:=File (dc +:+ sc) dm]> fs)).
      rewrite after_attrs_content by exact K.
      eapply file_content_insert_dest; eassumption.
    + destruct (copy2_unreadable fs d (backup_path env d) dc dm) as [x Hx];
        [destruct (own_name_stat fs d _ Hr Hn) as (_ & H & _); exact H|exact Rd|].
      rewrite Hx. unfold guarded, finish. simpl (is_IOError _). cbv iota.
      do 2 eexists. split; [reflexivity|].
      split; [apply msg_backup_not_append|].
      split.
      { rewrite Forall_app. split.
        - eapply Forall_impl; [exact Hpre|]. intros e He.
          split; intros ->; simpl in He; rewrite String.eqb_refl in He;
            discriminate.
        - repeat (constructor; [split; congruence|]); constructor. }
      split; [|simpl; apply String.eqb_refl].
      apply elem_of_app. right. repeat constructor.
Qed.

Lemma unreadable_destination_witness :
  (∃ t, main env0 mode_collab (ps_bashrc false false) false fs_write_only =
          (Raise (FailJson "failed to append: /tmp/source to /home/u/.bashrc"),
           fs_write_only, t)) ∧
  (∃ r fs' t,
     main env0 mode_collab (ps_bashrc false true) false fs_write_only = (Ok r, fs', t) ∧
     file_content fs' "/home/u/.bashrc" = Some "# bashrcexport EDITOR=vi") ∧
  (∃ x t,
     main env0 mode_collab (ps_bashrc true true) false fs_write_only =
       (Raise (FailJson (msg_backup "/home/u/.bashrc"
                           "/home/u/.bashrc.2015-02-12@22:09:33~" x)),
        fs_write_only, t)).
Proof.
  split; [|split].
  - destruct (unreadable_destination env0 mode_collab (ps_bashrc false false) false
                fs_write_only "export EDITOR=vi" rw "# bashrc" {| mode := 128 |}
                mode_collab_keeps_data) as [H _]; try reflexivity.
    destruct H as (t & H & _); [right; reflexivity|]. exists t. exact H.
  - destruct (unreadable_destination env0 mode_collab (ps_bashrc false true) false
                fs_write_only "export EDITOR=vi" rw "# bashrc" {| mode := 128 |}
                mode_collab_keeps_data) as [_ H]; try reflexivity.
    destruct H as [H _]; try reflexivity.
    destruct H as (r & fs' & t & H & _ & _ & Hc); [reflexivity|].
    exists r, fs', t. split; [exact H|exact Hc].
  - destruct (unreadable_destination env0 mode_collab (ps_bashrc true true) false
                fs_write_only "export EDITOR=vi" rw "# bashrc" {| mode := 128 |}
                mode_collab_keeps_data) as [_ H]; try reflexivity.
    destruct H as [_ H]; try reflexivity.
    destruct H as (x & t & H & _); [reflexivity|].
    exists x, t. exact H.
Defined.

(** ** Appending *)

Lemma copy2_follow (fs fs1 : FS) src dst k p :
  copy2 fs src dst = inr fs1 → follow fs1 k p = follow fs k p.
Proof.
  intros C. destruct (copy2_ok _ _ _ _ C) as (q & c & m & _ & _ & -> & _ & Hq).
  apply follow_insert_nonlink; [|discriminate].
  intros t. destruct Hq as [Hq|(c0 & m0 & Hq)]; rewrite Hq; discriminate.
Qed.

Lemma source_events_quiet env src :
  Forall (λ e, is_mutation e = false) (source_events env src).
Proof. unfold source_events. destruct (md5_available env); repeat constructor. Qed.

Lemma dest_events_quiet fs dest :
  Forall (λ e, is_mutation e = false) (dest_events fs dest).
Proof.
  unfold dest_events.
  destruct (path_islink fs dest), (access_R_OK fs dest); repeat constructor.
Qed.

Definition ps_chmod : Params :=
  {| p_src := "/tmp/source"; p_dest := "/home/u/.bashrc"; p_backup := false;
     p_force := false; p_follow := false; p_mode := Some 384%N |}.

(** C2. With [force] and outside check mode, a run that succeeds reports
    [changed] and leaves in the destination exactly what it held followed
    by the content of the source, whether or not that content was there
    already; equal contents are doubled. *)
Theorem force_appends_verbatim env c ps fs r fs' t :
  keeps_data c → p_force ps = true →
  main env c ps false fs = (Ok r, fs', t) →
  ∃ s d,
    file_content fs (p_src ps) = Some s ∧
    file_content fs (expanduser env (p_dest ps)) = Some d ∧
    r !! "changed" = Some (VBool true) ∧
    file_content fs' (expanduser env (p_dest ps)) = Some (d +:+ s) ∧
    (s = d → file_content fs' (expanduser env (p_dest ps)) = Some (d +:+ d)).
Proof.
  intros K Hf H.
  destruct (main_cases env c ps false fs) as [(msg & t0 & H0 & _)|
    (sc & sm & dc & dm & Hs & R & Hd)]; [congruence|].
  rewrite (main_run env c ps false fs sc sm dc dm Hs R Hd) in H.
  apply finish_ok in H as (cb & fs1 & t1 & Hstep & _ & -> & ->).
  destruct (stat_real_dest fs _ _ Hd) as (Hr & F & Hn).
  set (d := real_dest fs (expanduser env (p_dest ps))) in *.
  rewrite Hf, (append_step_force env _ d fs sc dc sm dm Hs R Hr) in Hstep.
  rewrite (backup_and_append_run env d sc _ fs dc dm Hr) in Hstep.
  exists sc, dc. unfold file_content at 1 2. rewrite Hs, Hd.
  split; [reflexivity|]. split; [reflexivity|].
  fold (after_attrs c ps false fs1). rewrite after_attrs_content by exact K.
  assert (Hgoal : cb.1 = true ∧
                  file_content fs1 (expanduser env (p_dest ps)) = Some (dc +:+ sc)).
  { destruct (p_backup ps).
    - destruct (copy2 fs d (backup_path env d)) as [x|fsb] eqn:C;
        [discriminate|].
      destruct (writable dm); [|discriminate].
      injection Hstep as <- <- _. split; [reflexivity|].
      eapply file_content_insert_dest.
      + rewrite (copy2_follow _ _ _ _ _ _ C). exact F.
      + eapply copy2_keeps_source; eassumption.
    - destruct (writable dm); [|discriminate].
      injection Hstep as <- <- _. split; [reflexivity|].
      eapply file_content_insert_dest; eassumption. }
  destruct Hgoal as [Hc Hcont]. rewrite lookup_insert_eq, Hc.
  split; [destruct (attrs_differ _ _ _); reflexivity|].
  split; [exact Hcont|]. intros ->. exact Hcont.
Qed.

Lemma force_appends_verbatim_witness :
  ∃ r fs' t,
    main env0 mode_collab (ps_alias true) false fs_alias = (Ok r, fs', t) ∧
    r !! "changed" = Some (VBool true) ∧
    file_content fs' "/home/u/.bashrc" = Some (alias_line +:+ alias_line).
Proof.
  pose proof (run_ok (main env0 mode_collab (ps_alias true) false fs_alias)
                ltac:(vm_compute; reflexivity)) as H.
  do 3 eexists. split; [exact H|].
  destruct (force_appends_verbatim env0 mode_collab (ps_alias true) fs_alias _ _ _
              mode_collab_keeps_data eq_refl H)
    as (s & d & Hs & Hd & Hc & _ & Hdouble).
  split; [exact Hc|].
  assert (Es : file_content fs_alias (p_src (ps_alias true)) = Some alias_line)
    by (vm_compute; reflexivity).
  assert (Ed : file_content fs_alias (expanduser env0 (p_dest (ps_alias true)))
               = Some alias_line) by (vm_compute; reflexivity).
  rewrite Es in Hs. rewrite Ed in Hd.
  injection Hs as <-. injection Hd as <-. apply Hdouble. reflexivity.
Defined.

(** With [force], a readable source file and a writable destination file,
    and no backup asked for, the run does succeed. *)
Lemma force_append_succeeds env c ps fs sc sm dc dm :
  p_force ps = true → p_backup ps = false →
  stat fs (p_src ps) = Some (File sc sm) → readable sm = true →
  stat fs (expanduser env (p_dest ps)) = Some (File dc dm) → writable dm = true →
  ∃ r fs' t, main env c ps false fs = (Ok r, fs', t).
Proof.
  intros Hf Hb Hs R Hd W.
  destruct (stat_real_dest fs _ _ Hd) as (Hr & F & Hn).
  rewrite (main_run env c ps false fs sc sm dc dm Hs R Hd), Hf, Hb.
  rewrite (append_step_force env _ _ fs sc dc sm dm Hs R Hr).
  rewrite (backup_and_append_run env _ sc _ fs dc dm Hr), W.
  unfold guarded, finish. eauto.
Qed.

(** ** Content already present *)

(** C1, as stated, fails: the source content is in the destination and
    [force] is off, the content is left alone, but the request also asks
    for mode 0600 on a destination of mode 0644, and the run reports
    [changed]. *)
Lemma idempotent_append_reports_mode_change :
  p_force ps_chmod = false ∧
  file_content fs_alias "/tmp/source" = Some alias_line ∧
  file_content fs_alias "/home/u/.bashrc" = Some alias_line ∧
  is_substring alias_line alias_line = true ∧
  ∃ r fs' t,
    main env0 mode_collab ps_chmod false fs_alias = (Ok r, fs', t) ∧
    r !! "changed" = Some (VBool true) ∧
    file_content fs' "/home/u/.bashrc" = Some alias_line.
Proof.
  split; [reflexivity|]. split; [vm_compute; reflexivity|].
  split; [vm_compute; reflexivity|]. split; [vm_compute; reflexivity|].
  pose proof (run_ok (main env0 mode_collab ps_chmod false fs_alias)
                ltac:(vm_compute; reflexivity)) as H.
  do 3 eexists. split; [exact H|]. split; vm_compute; reflexivity.
Qed.

(** C1, amended. Without [force], outside check mode, with a readable
    source whose content is in the readable destination: the run succeeds,
    appends nothing and makes no backup, every file keeps its content, and
    [changed] is false unless the attribute collaborator has an attribute
    to change, in which case it is true. *)
Theorem idempotent_append env c ps fs s d :
  keeps_data c → p_force ps = false →
  read_file fs (p_src ps) = inr s →
  read_file fs (expanduser env (p_dest ps)) = inr d →
  is_substring s d = true →
  ∃ r t,
    main env c ps false fs = (Ok r, after_attrs c ps false fs, t) ∧
    r !! "changed" = Some (VBool (attrs_differ c ps fs)) ∧
    r !! "backup_file" = None ∧
    Forall (λ e, is_mutation e = false) t ∧
    (∀ q, data_of <$> (after_attrs c ps false fs !! q) = data_of <$> (fs !! q)) ∧
    file_content (after_attrs c ps false fs) (expanduser env (p_dest ps)) = Some d.
Proof.
  intros K Hf Rs Rd Sub.
  destruct (read_file_ok _ _ _ Rs) as (sm & Hs & R).
  destruct (read_file_ok _ _ _ Rd) as (dm & Hd & R').
  destruct (stat_real_dest fs _ _ Hd) as (Hr & F & Hn).
  rewrite (main_run env c ps false fs s sm d dm Hs R Hd), Hf.
  rewrite (append_step_present env _ _ fs s d sm dm Hs R Hr _ R' Sub).
  unfold finish. cbn [fst snd]. fold (after_attrs c ps false fs).
  do 2 eexists. split; [reflexivity|].
  split; [rewrite lookup_insert_eq; destruct (attrs_differ c ps fs); reflexivity|].
  split; [rewrite lookup_insert_ne by discriminate; apply res_args_backup_file|].
  split.
  { rewrite !Forall_app. split; [split|].
    - apply source_events_quiet.
    - apply dest_events_quiet.
    - repeat constructor. }
  split; [intros q; apply after_attrs_data, K|].
  rewrite after_attrs_content by exact K. unfold file_content. rewrite Hd. reflexivity.
Qed.

Lemma idempotent_append_witness :
  ∃ r t,
    main env0 mode_collab (ps_alias false) false fs_alias = (Ok r, fs_alias, t) ∧
    r !! "changed" = Some (VBool false).
Proof.
  destruct (idempotent_append env0 mode_collab (ps_alias false) fs_alias
              alias_line alias_line mode_collab_keeps_data)
    as (r & t & H & Hc & _); try (vm_compute; reflexivity).
  exists r, t. split; [exact H|exact Hc].
Defined.

(** ** Check mode *)

Lemma check_mode_same_fs env c ps fs : (main env c ps true fs).1.2 = fs.
Proof.
  destruct (main_cases env c ps true fs) as [(msg & t0 & H0 & _)|
    (sc & sm & dc & dm & Hs & R & Hd)].
  - rewrite H0. reflexivity.
  - destruct (stat_real_dest fs _ _ Hd) as (Hr & _ & _).
    rewrite (main_run env c ps true fs sc sm dc dm Hs R Hd).
    rewrite (append_step_check env _ _ fs sc dc sm dm Hs R Hr).
    destruct (readable dm); simpl; [destruct (attrs_differ c ps fs)|];
      reflexivity.
Qed.

(** C3, as stated, fails: in check mode the source content is in the
    destination, yet [changed] is true, because the mode asked for differs
    from the destination's. *)
Lemma check_mode_reports_mode_change :
  file_content fs_alias "/tmp/source" = Some alias_line ∧
  file_content fs_alias "/home/u/.bashrc" = Some alias_line ∧
  is_substring alias_line alias_line = true ∧
  ∃ r t,
    main env0 mode_collab ps_chmod true fs_alias = (Ok r, fs_alias, t) ∧
    r !! "changed" = Some (VBool true).
Proof.
  split; [vm_compute; reflexivity|]. split; [vm_compute; reflexivity|].
  split; [vm_compute; reflexivity|].
  pose proof (run_ok (main env0 mode_collab ps_chmod true fs_alias)
                ltac:(vm_compute; reflexivity)) as H.
  rewrite check_mode_same_fs in H.
  do 2 eexists. split; [exact H|vm_compute; reflexivity].
Qed.

(** C3, amended. In check mode, whatever [force] and [backup] are and
    however the run ends, the file system is left exactly as it was and no
    backup, append or other write is performed; a run that succeeds reports
    [changed] true exactly when the source content is not in the
    destination or the attribute collaborator has an attribute to change. *)
Theorem check_mode_changes_nothing env c ps fs out fs' t :
  main env c ps true fs = (out, fs', t) →
  fs' = fs ∧
  Forall (λ e, is_mutation e = false) t ∧
  (∀ r, out = Ok r →
     r !! "backup_file" = None ∧
     ∃ s d,
       file_content fs (p_src ps) = Some s ∧
       file_content fs (expanduser env (p_dest ps)) = Some d ∧
       r !! "changed"
       = Some (VBool (negb (is_substring s d) || attrs_differ c ps fs))).
Proof.
  intros H.
  destruct (main_cases env c ps true fs) as [(msg & t0 & H0 & Hq & _)|
    (sc & sm & dc & dm & Hs & R & Hd)].
  - rewrite H0 in H. injection H as <- <- <-.
    split; [reflexivity|]. split; [exact Hq|discriminate].
  - destruct (stat_real_dest fs _ _ Hd) as (Hr & F & Hn).
    rewrite (main_run env c ps true fs sc sm dc dm Hs R Hd) in H.
    rewrite (append_step_check env _ _ fs sc dc sm dm Hs R Hr) in H.
    assert (Hquiet : ∀ l, Forall (λ e, is_mutation e = false) l →
              Forall (λ e, is_mutation e = false)
                ((source_events env (p_src ps)
                  ++ dest_events fs (expanduser env (p_dest ps))) ++ l)).
    { intros l Hl. rewrite !Forall_app. split; [split|exact Hl].
      - apply source_events_quiet.
      - apply dest_events_quiet. }
    destruct (readable dm); unfold finish in H; cbn [fst snd] in H;
      injection H as <- <- <-.
    + split; [destruct (attrs_differ c ps fs); reflexivity|].
      split; [apply Hquiet; repeat constructor|].
      intros r [= <-].
      split; [rewrite lookup_insert_ne by discriminate; apply res_args_backup_file|].
      exists sc, dc. unfold file_content. rewrite Hs, Hd.
      split; [reflexivity|]. split; [reflexivity|].
      rewrite lookup_insert_eq.
      destruct (attrs_differ c ps fs), (is_substring sc dc); reflexivity.
    + split; [reflexivity|]. split; [apply Hquiet; repeat constructor|discriminate].
Qed.

Lemma check_mode_changes_nothing_witness :
  ∃ out t,
    main env0 mode_collab (ps_bashrc true true) true fs_link = (out, fs_link, t) ∧
    Forall (λ e, is_mutation e = false) t.
Proof.
  pose proof (run_split (main env0 mode_collab (ps_bashrc true true) true fs_link)
                _ eq_refl) as H.
  destruct (check_mode_changes_nothing env0 mode_collab (ps_bashrc true true)
              fs_link _ _ _ H) as (E & Hq & _).
  do 2 eexists. split; [|exact Hq].
  etrans; [exact H|]. rewrite E. reflexivity.
Defined.

(** ** The shapes of the append step *)

(** How lines 192-224 can end on a readable source file of content [sc]
    and a destination file [d] of content [dc]: without any write; with an
    append alone; with a backup that fails; with a backup and an append. *)
Inductive Step (env : Env) (d : path) (fs : FS) (sc dc : string) (dm : Meta)
    (backup force check : bool)
    : Res (bool * option string) * FS * list Event → Prop :=
| StepQuiet r t1 :
    check = true ∨ force = false →
    Forall (λ e, is_mutation e = false) t1 →
    (∀ cb, r = Ok cb →
       cb.2 = None ∧ cb.1 = negb (is_substring sc dc) ∧
       (check = false → is_substring sc dc = true)) →
    Step env d fs sc dc dm backup force check (r, fs, t1)
| StepAppend pre r fs1 :
    backup = false → check = false →
    force = true ∨ is_substring sc dc = false →
    Forall (λ e, is_mutation e = false) pre →
    (r = Ok (true, None) ∧ fs1 = <[d := File (dc +:+ sc) dm]> fs)
    ∨ ((∃ x, r = Raise x) ∧ fs1 = fs) →
    Step env d fs sc dc dm backup force check (r, fs1, pre ++ [EAppend d])
| StepBackupFailed pre x :
    backup = true → check = false →
    force = true ∨ is_substring sc dc = false →
    Forall (λ e, is_mutation e = false) pre →
    copy2 fs d (backup_path env d) = inl x →
    Step env d fs sc dc dm backup force check
      (Raise (FailJson (msg_backup d (backup_path env d) x)), fs,
       pre ++ [EBackup d (backup_path env d)])
| StepBackupAppend pre r fsb fs1 :
    backup = true → check = false →
    force = true ∨ is_substring sc dc = false →
    Forall (λ e, is_mutation e = false) pre →
    copy2 fs d (backup_path env d) = inr fsb →
    (r = Ok (true, Some (backup_path env d))
     ∧ fs1 = <[d := File (dc +:+ sc) dm]> fsb)
    ∨ ((∃ x, r = Raise x) ∧ fs1 = fsb) →
    Step env d fs sc dc dm backup force check
      (r, fs1, pre ++ [EBackup d (backup_path env d); EAppend d]).

Lemma guarded_shape env src d fs sc dc dm backup force pre :
  fs !! d = Some (File dc dm) →
  force = true ∨ is_substring sc dc = false →
  Forall (λ e, is_mutation e = false) pre →
  Step env d fs sc dc dm backup force false
    (guarded src d pre (backup_and_append env d sc backup fs)).
Proof.
  intros Hr Hwhy Hpre. rewrite (backup_and_append_run env d sc _ fs dc dm Hr).
  destruct backup.
  - destruct (copy2 fs d (backup_path env d)) as [x|fsb] eqn:C.
    + unfold guarded. simpl (is_IOError _). cbv iota.
      eapply StepBackupFailed; eauto.
    + destruct (writable dm); unfold guarded.
      * eapply StepBackupAppend; eauto.
      * eapply StepBackupAppend; eauto 6.
  - destruct (writable dm); unfold guarded.
    + eapply StepAppend; eauto.
    + eapply StepAppend; eauto 6.
Qed.

Lemma append_step_shape env src d fs sc dc sm dm backup force check :
  stat fs src = Some (File sc sm) → readable sm = true →
  fs !! d = Some (File dc dm) →
  Step env d fs sc dc dm backup force check
    (append_step env src d backup force check fs).
Proof.
  intros Hs R Hr. destruct check.
  - rewrite (append_step_check env src d fs sc dc sm dm Hs R Hr).
    destruct (readable dm).
    + apply StepQuiet; [auto|repeat constructor|].
      intros cb [= <-]. split; [reflexivity|]. split; [reflexivity|intros [=]].
    + apply StepQuiet; [auto|repeat constructor|intros cb [=]].
  - destruct force.
    + rewrite (append_step_force env src d fs sc dc sm dm Hs R Hr).
      apply guarded_shape; [exact Hr|auto|repeat constructor].
    + destruct (readable dm) eqn:Rd.
      * destruct (is_substring sc dc) eqn:Sub.
        -- rewrite (append_step_present env src d fs sc dc sm dm Hs R Hr _ Rd Sub).
           apply StepQuiet; [auto|repeat constructor|].
           intros cb [= <-]. rewrite Sub. auto.
        -- rewrite (append_step_absent env src d fs sc dc sm dm Hs R Hr _ Rd Sub).
           apply guarded_shape; [exact Hr|auto|repeat constructor].
      * rewrite (append_step_unreadable env src d fs sc dc sm dm Hs R Hr _ Rd).
        apply StepQuiet; [auto|repeat constructor|discriminate].
Qed.

Lemma quiet_no_mutation (l : list Event) e :
  Forall (λ e, is_mutation e = false) l → e ∈ l → is_mutation e = true → False.
Proof.
  intros H Hin Hm. rewrite Forall_forall in H. specialize (H e Hin). congruence.
Qed.

(** ** Symbolic links are left alone *)

Lemma link_kept_insert (fs : FS) p tg q n :
  fs !! p = Some (Link tg) → (∀ t, fs !! q ≠ Some (Link t)) →
  <[q := n]> fs !! p = Some (Link tg).
Proof.
  intros Hp Hq. rewrite lookup_insert_ne; [exact Hp|].
  intros ->. eapply Hq, Hp.
Qed.

Lemma link_kept_copy2 (fs fsb : FS) p tg src dst :
  fs !! p = Some (Link tg) → copy2 fs src dst = inr fsb →
  fsb !! p = Some (Link tg).
Proof.
  intros Hp C. destruct (copy2_ok _ _ _ _ C) as (q & c & m & _ & _ & -> & _ & Hq).
  apply link_kept_insert; [exact Hp|].
  intros t. destruct Hq as [Hq|(c0 & m0 & Hq)]; rewrite Hq; discriminate.
Qed.

Lemma link_kept_attrs c ps check (fs1 : FS) p tg :
  keeps_data c → fs1 !! p = Some (Link tg) →
  after_attrs c ps check fs1 !! p = Some (Link tg).
Proof.
  intros K Hp. pose proof (after_attrs_data c ps check fs1 p K) as H.
  rewrite Hp in H. destruct (after_attrs c ps check fs1 !! p) as [[| |t]|];
    simpl in H; congruence.
Qed.

Lemma link_kept_step env d fs sc dc dm backup force check r fs1 t1 p tg :
  Step env d fs sc dc dm backup force check (r, fs1, t1) →
  fs !! d = Some (File dc dm) → fs !! p = Some (Link tg) →
  fs1 !! p = Some (Link tg).
Proof.
  intros S Hr Hp.
  inversion S as [r' t' Hmode Hq Hcb
                 |pre r' fs1' Hb Hc Hw Hpre Hres
                 |pre x Hb Hc Hw Hpre Hcopy
                 |pre r' fsb fs1' Hb Hc Hw Hpre Hcopy Hres]; subst; try assumption.
  - destruct Hres as [[_ ->]|[_ ->]]; [|assumption].
    apply link_kept_insert; [exact Hp|intros t; congruence].
  - destruct Hres as [[_ ->]|[_ ->]]; [|eapply link_kept_copy2; eassumption].
    apply link_kept_insert; [eapply link_kept_copy2; eassumption|].
    intros t.
    rewrite (copy2_keeps_source _ _ _ _ _ Hr ltac:(discriminate) Hcopy).
    discriminate.
Qed.

Lemma step_no_conversion env d fs sc dc dm backup force check r fs1 t1 :
  Step env d fs sc dc dm backup force check (r, fs1, t1) →
  Forall (λ e, ∀ p, e ≠ EUnlink p ∧ e ≠ EOpenW p) t1.
Proof.
  assert (Q : ∀ l, Forall (λ e, is_mutation e = false) l →
                   Forall (λ e, ∀ p, e ≠ EUnlink p ∧ e ≠ EOpenW p) l).
  { intros l Hl. eapply Forall_impl; [exact Hl|].
    intros e He p. split; intros ->; discriminate. }
  intros S. inversion S; subst; rewrite ?Forall_app; auto;
    (split; [auto|repeat constructor; discriminate]).
Qed.

(** C4. A destination that is a symbolic link is still that link when the
    run is over, whatever the flags and however the run ends, and the run
    performs neither the unlink nor the truncating open of lines 196-197:
    line 184 has replaced the path by its real path, so the test of line
    195 never holds. *)
Theorem symlink_destination_is_kept env c ps check fs out fs' t target :
  keeps_data c →
  fs !! expanduser env (p_dest ps) = Some (Link target) →
  main env c ps check fs = (out, fs', t) →
  fs' !! expanduser env (p_dest ps) = Some (Link target) ∧
  Forall (λ e, ∀ p, e ≠ EUnlink p ∧ e ≠ EOpenW p) t.
Proof.
  intros K Hl H.
  destruct (main_cases env c ps check fs) as [(msg & t0 & H0 & Hq & _)|
    (sc & sm & dc & dm & Hs & R & Hd)].
  - rewrite H0 in H. injection H as <- <- <-. split; [exact Hl|].
    eapply Forall_impl; [exact Hq|]. intros e He p. split; intros ->; discriminate.
  - destruct (stat_real_dest fs _ _ Hd) as (Hr & F & Hn).
    rewrite (main_run env c ps check fs sc sm dc dm Hs R Hd) in H.
    pose proof (append_step_shape env (p_src ps) _ fs sc dc sm dm
                  (p_backup ps) (p_force ps) check Hs R Hr) as S.
    destruct (append_step env (p_src ps) _ (p_backup ps) (p_force ps) check fs)
      as [[r1 fs1] t1].
    pose proof (link_kept_step _ _ _ _ _ _ _ _ _ _ _ _ _ _ S Hr Hl) as Hl1.
    pose proof (step_no_conversion _ _ _ _ _ _ _ _ _ _ _ _ S) as Hn1.
    assert (Hpre : Forall (λ e, ∀ p, e ≠ EUnlink p ∧ e ≠ EOpenW p)
                     (source_events env (p_src ps)
                      ++ dest_events fs (expanduser env (p_dest ps)))).
    { rewrite Forall_app. split;
        (eapply Forall_impl;
         [first [apply source_events_quiet | apply dest_events_quiet]|]);
        intros e He p; split; intros ->; discriminate. }
    set (pre := source_events env (p_src ps)
                ++ dest_events fs (expanduser env (p_dest ps))) in *.
    clearbody pre.
    unfold finish in H. destruct r1 as [cb|x]; injection H as <- <- <-.
    + split; [apply link_kept_attrs; assumption|].
      rewrite Forall_app. auto.
    + split; [exact Hl1|]. rewrite Forall_app. auto.
Qed.

Lemma symlink_destination_is_kept_witness :
  ∃ r fs' t,
    main env0 mode_collab (ps_bashrc false true) false fs_link = (Ok r, fs', t) ∧
    fs' !! "/home/u/.bashrc" = Some (Link "/home/u/dotfiles/bashrc") ∧
    file_content fs' "/home/u/dotfiles/bashrc" = Some "# bashrcexport EDITOR=vi".
Proof.
  pose proof (run_ok (main env0 mode_collab (ps_bashrc false true) false fs_link)
                ltac:(vm_compute; reflexivity)) as H.
  do 3 eexists. split; [exact H|].
  destruct (symlink_destination_is_kept env0 mode_collab (ps_bashrc false true)
              false fs_link _ _ _ "/home/u/dotfiles/bashrc"
              mode_collab_keeps_data ltac:(vm_compute; reflexivity) H) as [Hl _].
  split; [exact Hl|]. vm_compute. reflexivity.
Defined.

(** ** Backups *)

Definition fs_read_only : FS :=
  <["/tmp/source" := File "export EDITOR=vi" rw]>
    {["/home/u/.bashrc" := File "# bashrc" {| mode := 292 |}]}.

(** The copy holds what the destination held, also once the destination
    has been appended to. *)
Lemma backup_content (fs fsb : FS) d bk dc dm c' m' :
  fs !! d = Some (File dc dm) → copy2 fs d bk = inr fsb →
  file_content fsb (copy_target fs d bk) = Some dc ∧
  file_content (<[d := File c' m']> fsb) (copy_target fs d bk) = Some dc.
Proof.
  intros Hr C.
  destruct (own_name_stat fs d _ Hr ltac:(discriminate)) as (Fd & Hsd & _).
  pose proof (copy2_keeps_source _ _ _ _ _ Hr ltac:(discriminate) C) as Hrb.
  pose proof (copy2_follow _ _ _ _ MAXSYMLINKS (copy_target fs d bk) C) as Ff.
  destruct (copy2_ok _ _ _ _ C) as (q & c & m & F & Hs & E & Hne & Hq).
  assert (c = dc) as -> by congruence.
  assert (Hcont : file_content fsb (copy_target fs d bk) = Some dc).
  { unfold file_content, stat. rewrite Ff, F, E, lookup_insert_eq. reflexivity. }
  split; [exact Hcont|].
  rewrite <- Hcont. eapply file_content_insert_other.
  - intros t. rewrite Hrb. discriminate.
  - discriminate.
  - rewrite Ff. exact F.
  - intros ->. apply Hne, Fd.
Qed.

(** C7, as stated, fails: with [backup] and [force] on a destination that
    can be read but not written, the backup is made and the append is then
    refused; the run fails, a backup exists, and no content has changed. *)
Lemma backup_without_mutation :
  p_backup (ps_bashrc true true) = true ∧
  file_content fs_read_only "/home/u/.bashrc.2015-02-12@22:09:33~" = None ∧
  ∃ fs' t,
    main env0 mode_collab (ps_bashrc true true) false fs_read_only =
      (Raise (FailJson "failed to append: /tmp/source to /home/u/.bashrc"), fs', t) ∧
    EBackup "/home/u/.bashrc" "/home/u/.bashrc.2015-02-12@22:09:33~" ∈ t ∧
    file_content fs' "/home/u/.bashrc.2015-02-12@22:09:33~" = Some "# bashrc" ∧
    file_content fs' "/home/u/.bashrc" = file_content fs_read_only "/home/u/.bashrc".
Proof.
  split; [reflexivity|]. split; [vm_compute; reflexivity|].
  do 2 eexists. split; [apply run_split; vm_compute; reflexivity|].
  split; [vm_compute; repeat constructor|]. split; vm_compute; reflexivity.
Qed.

(** C7, amended. A backup is attempted only with [backup] on, outside
    check mode, and with [force] or a source content that is not in the
    destination; it is a copy of the destination under its backup name.
    Whenever the append is attempted with [backup] on, the backup has been
    made before it and holds what the destination held before the append,
    also when the append is then refused. A backup that was made is
    followed by the attempt to append. In the result of a run that
    succeeds, [backup_file] is there, naming the backup, exactly when a
    backup was made, and then the append was done. *)
Theorem backup_with_every_mutation env c ps check fs out fs' t :
  keeps_data c →
  main env c ps check fs = (out, fs', t) →
  let d := real_dest fs (expanduser env (p_dest ps)) in
  let bk := backup_path env d in
  (∀ p b, EBackup p b ∈ t →
     p = d ∧ b = bk ∧ p_backup ps = true ∧ check = false ∧
     ∃ s dc,
       file_content fs (p_src ps) = Some s ∧
       file_content fs (expanduser env (p_dest ps)) = Some dc ∧
       (p_force ps = true ∨ is_substring s dc = false)) ∧
  (EAppend d ∈ t → p_backup ps = true →
     EBackup d bk ∈ t ∧
     ∃ dc,
       file_content fs (expanduser env (p_dest ps)) = Some dc ∧
       file_content fs' (copy_target fs d bk) = Some dc) ∧
  (EBackup d bk ∈ t → (∃ fsb, copy2 fs d bk = inr fsb) → EAppend d ∈ t) ∧
  (∀ r, out = Ok r →
     (EBackup d bk ∈ t → EAppend d ∈ t ∧ r !! "backup_file" = Some (VStr bk)) ∧
     (EBackup d bk ∉ t → r !! "backup_file" = None)).
Proof.
  intros K H d bk.
  assert (Qb : ∀ l p b, EBackup p b ∈ l →
                        Forall (λ e, is_mutation e = false) l → False).
  { intros l p b Hin Hl. eapply quiet_no_mutation; eauto. }
  assert (Qa : ∀ l p, EAppend p ∈ l →
                      Forall (λ e, is_mutation e = false) l → False).
  { intros l p Hin Hl. eapply quiet_no_mutation; eauto. }
  destruct (main_cases env c ps check fs) as [(msg & t0 & H0 & Hq & _)|
    (sc & sm & dc & dm & Hs & R & Hd)].
  - rewrite H0 in H. injection H as <- <- <-.
    split; [intros p b Hin; exfalso; eapply Qb; eauto|].
    split; [intros Hin; exfalso; eapply Qa; eauto|].
    split; [intros Hin; exfalso; eapply Qb; eauto|discriminate].
  - destruct (stat_real_dest fs _ _ Hd) as (Hr & F & Hn). fold d in Hr, F.
    rewrite (main_run env c ps check fs sc sm dc dm Hs R Hd) in H. fold d in H.
    pose proof (append_step_shape env (p_src ps) d fs sc dc sm dm
                  (p_backup ps) (p_force ps) check Hs R Hr) as S.
    destruct (append_step env (p_src ps) d (p_backup ps) (p_force ps) check fs)
      as [[r1 fs1] t1].
    assert (Hpre : Forall (λ e, is_mutation e = false)
                     (source_events env (p_src ps)
                      ++ dest_events fs (expanduser env (p_dest ps)))).
    { rewrite Forall_app. split;
        [apply source_events_quiet|apply dest_events_quiet]. }
    set (pre0 := source_events env (p_src ps)
                 ++ dest_events fs (expanduser env (p_dest ps))) in *.
    clearbody pre0.
    assert (Hcs : file_content fs (p_src ps) = Some sc)
      by (unfold file_content; rewrite Hs; reflexivity).
    assert (Hcd : file_content fs (expanduser env (p_dest ps)) = Some dc)
      by (unfold file_content; rewrite Hd; reflexivity).
    inversion S as [r' t' Hmode Hqt Hcb
                   |pre r' fs1' Hb Hc Hw Hq Hres
                   |pre x Hb Hc Hw Hq Hcopy
                   |pre r' fsb fs1' Hb Hc Hw Hq Hcopy Hres]; subst r1 fs1 t1.
    + (* no write at all *)
      assert (Hall : Forall (λ e, is_mutation e = false) t).
      { unfold finish in H. destruct r' as [cb|x]; injection H as <- <- <-;
          rewrite Forall_app; auto. }
      split; [intros p b Hin; exfalso; eapply Qb; eauto|].
      split; [intros Hin; exfalso; eapply Qa; eauto|].
      split; [intros Hin; exfalso; eapply Qb; eauto|].
      intros r ->. split; [intros Hin; exfalso; eapply Qb; eauto|].
      intros _. unfold finish in H. destruct r' as [cb|x]; [|discriminate].
      injection H as <- _ _. rewrite lookup_insert_ne by discriminate.
      rewrite res_args_backup_file, (proj1 (Hcb cb eq_refl)). reflexivity.
    + (* an append without backup *)
      assert (Ht : t = pre0 ++ pre ++ [EAppend d]).
      { unfold finish in H. destruct r' as [cb|x]; injection H as _ _ <-; reflexivity. }
      assert (Hnb : ∀ p b, EBackup p b ∉ t).
      { intros p b. rewrite Ht, !elem_of_app. intros [Hin|[Hin|Hin]].
        - eapply Qb; eauto.
        - eapply Qb; eauto.
        - apply list_elem_of_singleton in Hin. discriminate. }
      split; [intros p b Hin; exfalso; eapply Hnb; eauto|].
      split; [intros _ Hb'; congruence|].
      split; [intros Hin; exfalso; eapply Hnb; eauto|].
      intros r ->. split; [intros Hin; exfalso; eapply Hnb; eauto|].
      intros _. destruct Hres as [[-> ->]|[[x ->] _]]; [|discriminate].
      unfold finish in H. injection H as <- _ _.
      rewrite lookup_insert_ne by discriminate. apply res_args_backup_file.
    + (* a backup that fails *)
      unfold finish in H. injection H as <- <- <-.
      assert (Hmem : ∀ p b, EBackup p b ∈ pre0 ++ pre ++ [EBackup d bk] →
                            p = d ∧ b = bk).
      { intros p b. rewrite !elem_of_app. intros [Hin|[Hin|Hin]].
        - exfalso. eapply Qb; eauto.
        - exfalso. eapply Qb; eauto.
        - apply list_elem_of_singleton in Hin. injection Hin as -> ->. auto. }
      split.
      { intros p b Hin. destruct (Hmem p b Hin) as [-> ->]. eauto 10. }
      split.
      { rewrite !elem_of_app. intros [Hin|[Hin|Hin]] _.
        - exfalso. eapply Qa; eauto.
        - exfalso. eapply Qa; eauto.
        - apply list_elem_of_singleton in Hin. discriminate. }
      split; [intros _ [fsb Hfsb]; fold bk in Hcopy; congruence|discriminate].
    + (* a backup and an append *)
      assert (Ht : t = pre0 ++ pre ++ [EBackup d bk; EAppend d]).
      { unfold finish in H. destruct r' as [cb|x]; injection H as _ _ <-; reflexivity. }
      assert (Hinb : EBackup d bk ∈ t).
      { rewrite Ht, !elem_of_app. right. right. repeat constructor. }
      assert (Hina : EAppend d ∈ t).
      { rewrite Ht, !elem_of_app. right. right. repeat constructor. }
      assert (Hmem : ∀ p b, EBackup p b ∈ t → p = d ∧ b = bk).
      { intros p b. rewrite Ht, !elem_of_app. intros [Hin|[Hin|Hin]].
        - exfalso. eapply Qb; eauto.
        - exfalso. eapply Qb; eauto.
        - apply elem_of_cons in Hin as [Hin|Hin].
          + injection Hin as -> ->. auto.
          + apply list_elem_of_singleton in Hin. discriminate. }
      destruct (backup_content fs fsb d bk dc dm (dc +:+ sc) dm Hr Hcopy)
        as [Hc1 Hc2].
      split.
      { intros p b Hin. destruct (Hmem p b Hin) as [-> ->]. eauto 10. }
      split.
      { intros _ _. split; [exact Hinb|]. exists dc. split; [exact Hcd|].
        destruct Hres as [[-> ->]|[[x ->] ->]];
          unfold finish in H; injection H as _ <- _.
        - fold (after_attrs c ps check (<[d:=File (dc +:+ sc) dm]> fsb)).
          rewrite after_attrs_content by exact K. exact Hc2.
        - exact Hc1. }
      split; [auto|].
      intros r ->. destruct Hres as [[-> ->]|[[x ->] _]]; [|discriminate].
      unfold finish in H. injection H as <- _ _.
      split; [|intros Hnot; contradiction].
      intros _. split; [exact Hina|].
      rewrite lookup_insert_ne by discriminate.
      rewrite res_args_backup_file. cbn [fst snd].
      unfold bk. rewrite backup_path_truthy. reflexivity.
Qed.

Lemma backup_with_every_mutation_witness :
  ∃ r fs' t,
    main env0 mode_collab (ps_bashrc true true) false fs_link = (Ok r, fs', t) ∧
    r !! "backup_file" = Some (VStr "/home/u/dotfiles/bashrc.2015-02-12@22:09:33~") ∧
    file_content fs' "/home/u/dotfiles/bashrc.2015-02-12@22:09:33~" = Some "# bashrc".
Proof.
  pose proof (run_ok (main env0 mode_collab (ps_bashrc true true) false fs_link)
                ltac:(vm_compute; reflexivity)) as H.
  do 3 eexists. split; [exact H|].
  destruct (backup_with_every_mutation env0 mode_collab (ps_bashrc true true)
              false fs_link _ _ _ mode_collab_keeps_data H)
    as (_ & Hcontent & _ & Hres).
  assert (Ed : real_dest fs_link (expanduser env0 (p_dest (ps_bashrc true true)))
               = "/home/u/dotfiles/bashrc") by (vm_compute; reflexivity).
  rewrite Ed in Hcontent, Hres.
  assert (Eb : backup_path env0 "/home/u/dotfiles/bashrc"
               = "/home/u/dotfiles/bashrc.2015-02-12@22:09:33~")
    by (vm_compute; reflexivity).
  rewrite Eb in Hcontent, Hres.
  assert (Et : (main env0 mode_collab (ps_bashrc true true) false fs_link).2
               = [EExists "/tmp/source"; EAccess "/tmp/source";
                  EDigest "/tmp/source"; EDigest "/tmp/source";
                  EExists "/home/u/.bashrc"; EIslink "/home/u/.bashrc";
                  ERealpath "/home/u/.bashrc"; EIsdir "/home/u/dotfiles/bashrc";
                  EAccess "/home/u/dotfiles/bashrc";
                  EDigest "/home/u/dotfiles/bashrc";
                  EIslink "/home/u/dotfiles/bashrc"; EOpenR "/tmp/source";
                  EBackup "/home/u/dotfiles/bashrc"
                    "/home/u/dotfiles/bashrc.2015-02-12@22:09:33~";
                  EAppend "/home/u/dotfiles/bashrc"])
    by (vm_compute; reflexivity).
  rewrite Et in Hcontent, Hres.
  split.
  - destruct (Hres _ eq_refl) as [Hin _].
    destruct (Hin ltac:(repeat constructor)) as [_ Hk]. exact Hk.
  - destruct (Hcontent ltac:(repeat constructor) eq_refl) as (_ & dc & Hd & Hc).
    assert (Ec : file_content fs_link (expanduser env0 (p_dest (ps_bashrc true true)))
                 = Some "# bashrc") by (vm_compute; reflexivity).
    rewrite Ec in Hd. injection Hd as <-.
    assert (Ect : copy_target fs_link "/home/u/dotfiles/bashrc"
                    "/home/u/dotfiles/bashrc.2015-02-12@22:09:33~"
                  = "/home/u/dotfiles/bashrc.2015-02-12@22:09:33~")
      by (vm_compute; reflexivity).
    rewrite Ect in Hc. exact Hc.
Defined.

(** ** MD5 not to be had *)

(** The same host with MD5 allowed or not. *)
Definition with_md5 (env : Env) (b : bool) : Env :=
  {| sha1_hex := sha1_hex env;
     md5_hex := md5_hex env;
     md5_available := b;
     backup_ext := backup_ext env;
     expanduser := expanduser env |}.

Definition env_fips : Env := with_md5 env0 false.

Lemma res_args_md5_none d src m sha check ch bf v :
  <["changed" := v]> (res_args d src None sha check ch bf)
  = <["md5sum" := VNone]>
      (<["changed" := v]> (res_args d src (Some m) sha check ch bf)).
Proof.
  apply map_eq. intros k. unfold res_args.
  destruct (truthy bf); rewrite !lookup_insert; repeat case_decide;
    subst; try reflexivity; try discriminate; congruence.
Qed.

(** A run stopped by a precondition is stopped alike whether MD5 is to be
    had or not. *)
Lemma main_stopped_or_files env c ps check fs :
  (∃ msg, ∀ b, ∃ t,
      main (with_md5 env b) c ps check fs = (Raise (FailJson msg), fs, t))
  ∨ (∃ sc sm dc dm,
       stat fs (p_src ps) = Some (File sc sm) ∧ readable sm = true ∧
       stat fs (expanduser env (p_dest ps)) = Some (File dc dm)).
Proof.
  destruct (stat fs (p_src ps)) as [[sc sm|m|t]|] eqn:Hs.
  - destruct (readable sm) eqn:R.
    + destruct (stat fs (expanduser env (p_dest ps))) as [[dc dm|m|t]|] eqn:Hd.
      * right. eauto 10.
      * left. exists (msg_is_dir (real_dest fs (expanduser env (p_dest ps)))).
        intros b. eexists.
        apply (main_dest_dir (with_md5 env b) c ps check fs sc sm m Hs R Hd).
      * exfalso. eapply stat_not_link, Hd.
      * left. exists (msg_no_dest (expanduser env (p_dest ps))).
        intros b. eexists.
        apply (main_dest_missing (with_md5 env b) c ps check fs sc sm Hs R Hd).
    + left. exists (msg_not_readable (p_src ps)). intros b. eexists.
      apply main_source_unreadable; unfold path_exists, access_R_OK;
        rewrite Hs; [reflexivity|exact R].
  - destruct (readable m) eqn:R.
    + left. exists ("attempted to take checksum of directory: " +:+ p_src ps).
      intros b. eexists. eapply main_source_dir; eassumption.
    + left. exists (msg_not_readable (p_src ps)). intros b. eexists.
      apply main_source_unreadable; unfold path_exists, access_R_OK;
        rewrite Hs; [reflexivity|exact R].
  - exfalso. eapply stat_not_link, Hs.
  - left. exists (msg_not_found (p_src ps)). intros b. eexists.
    apply main_source_missing. unfold path_exists. rewrite Hs. reflexivity.
Qed.

Lemma with_md5_same env : md5_available env = false → with_md5 env false = env.
Proof. destruct env. simpl. intros ->. reflexivity. Qed.

(** C8, as stated, fails in one point: without MD5 the run succeeds and
    returns the SHA-1, but the [md5sum] field is not left out of the
    result: the key is there and holds [None]. *)
Lemma md5sum_present_holding_none :
  md5_available env_fips = false ∧
  ∃ r fs' t,
    main env_fips mode_collab (ps_alias true) false fs_alias = (Ok r, fs', t) ∧
    r !! "md5sum" = Some VNone ∧
    r !! "md5sum" ≠ None ∧
    r !! "checksum" = Some (VStr ("sha1:" +:+ alias_line)).
Proof.
  split; [reflexivity|].
  pose proof (run_ok (main env_fips mode_collab (ps_alias true) false fs_alias)
                ltac:(vm_compute; reflexivity)) as H.
  do 3 eexists. split; [exact H|].
  split; [vm_compute; reflexivity|].
  split; [vm_compute; discriminate|vm_compute; reflexivity].
Qed.

(** C8, amended. When MD5 is not to be had the run ends as it does when it
    is: the same failure, or success with the same file system left behind
    and the same result except that [md5sum], still a key of the result,
    holds [None]; the SHA-1 of the source content is in [checksum] of every
    result. *)
Theorem md5_unavailable_is_harmless env c ps check fs out fs' t :
  md5_available env = false →
  main env c ps check fs = (out, fs', t) →
  ∃ out' t',
    main (with_md5 env true) c ps check fs = (out', fs', t') ∧
    match out, out' with
    | Ok r, Ok r' =>
        r = <["md5sum" := VNone]> r' ∧
        r !! "md5sum" = Some VNone ∧
        ∃ s, file_content fs (p_src ps) = Some s ∧
             r !! "checksum" = Some (VStr (sha1_hex env s)) ∧
             r' !! "md5sum" = Some (VStr (md5_hex env s))
    | Raise x, Raise x' => x = x'
    | _, _ => False
    end.
Proof.
  intros Hm H. rewrite <- (with_md5_same env Hm) in H.
  destruct (main_stopped_or_files env c ps check fs) as [(msg & Hstop)|
    (sc & sm & dc & dm & Hs & R & Hd)].
  - destruct (Hstop false) as (t0 & H0). destruct (Hstop true) as (t1 & H1).
    rewrite H0 in H. injection H as <- <- <-.
    exists (Raise (FailJson msg)), t1. split; [exact H1|reflexivity].
  - rewrite (main_run (with_md5 env false) c ps check fs sc sm dc dm Hs R Hd) in H.
    rewrite (main_run (with_md5 env true) c ps check fs sc sm dc dm Hs R Hd).
    change (append_step (with_md5 env true)) with (append_step env).
    change (append_step (with_md5 env false)) with (append_step env) in H.
    cbn [with_md5 md5_available sha1_hex md5_hex expanduser] in *.
    destruct (append_step env (p_src ps) _ (p_backup ps) (p_force ps) check fs)
      as [[[cb|x] fs1] t1]; unfold finish in *; cbn [fst snd] in *;
      injection H as <- <- <-.
    + do 2 eexists. split; [reflexivity|].
      split; [apply res_args_md5_none|].
      split; [rewrite lookup_insert_ne by discriminate; apply res_args_md5sum|].
      exists sc. unfold file_content. rewrite Hs. split; [reflexivity|].
      split; rewrite lookup_insert_ne by discriminate;
        [apply res_args_checksum|apply res_args_md5sum].
    + do 2 eexists. split; reflexivity.
Qed.

Lemma md5_unavailable_is_harmless_witness :
  ∃ r r' fs' t t',
    main env_fips mode_collab (ps_alias true) false fs_alias = (Ok r, fs', t) ∧
    main env0 mode_collab (ps_alias true) false fs_alias = (Ok r', fs', t') ∧
    r = <["md5sum" := VNone]> r'.
Proof.
  pose proof (run_ok (main env_fips mode_collab (ps_alias true) false fs_alias)
                ltac:(vm_compute; reflexivity)) as H.
  destruct (md5_unavailable_is_harmless env_fips mode_collab (ps_alias true)
              false fs_alias _ _ _ eq_refl H) as (out' & t' & H' & Hrel).
  destruct out' as [r'|x']; [|contradiction].
  do 5 eexists. split; [exact H|].
  split; [exact H'|]. destruct Hrel as [E _]. exact E.
Defined.

(** * Further properties of [main] *)

(** ** What a run writes *)

(** Every run is stopped by a precondition, or goes through the append
    step on a readable source file and a destination file [d]. *)
Lemma main_shape env c ps check fs :
  (∃ msg t, main env c ps check fs = (Raise (FailJson msg), fs, t) ∧
            Forall (λ e, is_mutation e = false) t)
  ∨ (∃ sc sm dc dm r1 fs1 t1,
       stat fs (p_src ps) = Some (File sc sm) ∧ readable sm = true ∧
       stat fs (expanduser env (p_dest ps)) = Some (File dc dm) ∧
       fs !! real_dest fs (expanduser env (p_dest ps)) = Some (File dc dm) ∧
       follow fs MAXSYMLINKS (expanduser env (p_dest ps))
       = Some (real_dest fs (expanduser env (p_dest ps))) ∧
       Step env (real_dest fs (expanduser env (p_dest ps))) fs sc dc dm
         (p_backup ps) (p_force ps) check (r1, fs1, t1) ∧
       main env c ps check fs =
       finish c ps check (real_dest fs (expanduser env (p_dest ps))) (p_src ps)
         (Some (sha1_hex env sc),
          if md5_available env then Some (md5_hex env sc) else None)
         (source_events env (p_src ps)
          ++ dest_events fs (expanduser env (p_dest ps)))
         (r1, fs1, t1)).
Proof.
  destruct (main_cases env c ps check fs) as [(msg & t0 & H0 & Hq & _)|
    (sc & sm & dc & dm & Hs & R & Hd)]; [left; eauto|right].
  destruct (stat_real_dest fs _ _ Hd) as (Hr & F & Hn).
  pose proof (append_step_shape env (p_src ps) _ fs sc dc sm dm
                (p_backup ps) (p_force ps) check Hs R Hr) as S.
  destruct (append_step env (p_src ps) _ (p_backup ps) (p_force ps) check fs)
    as [[r1 fs1] t1] eqn:E.
  exists sc, sm, dc, dm, r1, fs1, t1.
  repeat (split; [eassumption|]).
  rewrite (main_run env c ps check fs sc sm dc dm Hs R Hd), E. reflexivity.
Qed.

(** The file systems the append step can leave behind, and whether the
    content was appended: nothing written; the destination appended to; a
    backup written; both. The backup lands on a path that is not the
    destination and held a file or nothing. *)
Inductive Written (env : Env) (d : path) (fs : FS) (sc dc : string) (dm : Meta)
    (backup : bool) : FS → bool → Prop :=
| WNone : Written env d fs sc dc dm backup fs false
| WAppend :
    Written env d fs sc dc dm backup (<[d := File (dc +:+ sc) dm]> fs) true
| WBackup q m :
    backup = true →
    follow fs MAXSYMLINKS (copy_target fs d (backup_path env d)) = Some q →
    q ≠ d →
    fs !! q = None ∨ (∃ c0 m0, fs !! q = Some (File c0 m0)) →
    Written env d fs sc dc dm backup (<[q := File dc m]> fs) false
| WBoth q m :
    backup = true →
    follow fs MAXSYMLINKS (copy_target fs d (backup_path env d)) = Some q →
    q ≠ d →
    fs !! q = None ∨ (∃ c0 m0, fs !! q = Some (File c0 m0)) →
    Written env d fs sc dc dm backup
      (<[d := File (dc +:+ sc) dm]> (<[q := File dc m]> fs)) true.

Lemma copy2_written env d (fs : FS) dc dm fsb :
  fs !! d = Some (File dc dm) →
  copy2 fs d (backup_path env d) = inr fsb →
  ∃ q m,
    fsb = <[q := File dc m]> fs ∧
    follow fs MAXSYMLINKS (copy_target fs d (backup_path env d)) = Some q ∧
    q ≠ d ∧ (fs !! q = None ∨ (∃ c0 m0, fs !! q = Some (File c0 m0))).
Proof.
  intros Hr C.
  destruct (own_name_stat fs d _ Hr ltac:(discriminate)) as (Fd & Hsd & _).
  destruct (copy2_ok _ _ _ _ C) as (q & c & m & F & Hs & E & Hne & Hq).
  assert (c = dc) as -> by congruence.
  exists q, m. split; [exact E|]. split; [exact F|].
  split; [intros ->; apply Hne, Fd|exact Hq].
Qed.

(** What the step leaves, and how it relates to the step's outcome: a
    failed step has not appended, an appending step reports [changed], and
    a step that succeeds outside check mode without appending has found
    the source content in the destination. *)
Lemma step_written env d fs sc dc dm backup force check r1 fs1 t1 :
  Step env d fs sc dc dm backup force check (r1, fs1, t1) →
  fs !! d = Some (File dc dm) →
  ∃ a,
    Written env d fs sc dc dm backup fs1 a ∧
    (a = true →
     check = false ∧ (force = true ∨ is_substring sc dc = false) ∧
     EAppend d ∈ t1 ∧ ∃ bf, r1 = Ok (true, bf)) ∧
    (a = false → EAppend d ∈ t1 → ∃ x, r1 = Raise x) ∧
    (a = false → ∀ cb, r1 = Ok cb →
       fs1 = fs ∧ Forall (λ e, is_mutation e = false) t1 ∧
       cb = (negb (is_substring sc dc), None) ∧
       (check = true ∨ force = false) ∧
       (check = false → is_substring sc dc = true)) ∧
    ((Forall (λ e, is_mutation e = false) t1 ∧ fs1 = fs)
     ∨ (check = false ∧ (force = true ∨ is_substring sc dc = false))).
Proof.
  intros S Hr.
  assert (Qa : ∀ l, EAppend d ∈ l → Forall (λ e, is_mutation e = false) l → False).
  { intros l Hin Hl. eapply quiet_no_mutation; eauto. }
  inversion S as [r' t' Hmode Hqt Hcb
                 |pre r' fs1' Hb Hc Hw Hq Hres
                 |pre x Hb Hc Hw Hq Hcopy
                 |pre r' fsb fs1' Hb Hc Hw Hq Hcopy Hres]; subst.
  - exists false. split; [constructor|]. split; [discriminate|].
    split; [intros _ Hin; exfalso; eauto|]. split; [|auto].
    intros _ cb ->. destruct (Hcb cb eq_refl) as (H2 & H1 & Hs).
    split; [reflexivity|]. split; [exact Hqt|].
    split; [destruct cb; simpl in *; congruence|auto].
  - destruct Hres as [[-> ->]|[[x ->] ->]].
    + exists true. split; [constructor|].
      split; [intros _; split; [reflexivity|split; [exact Hw|split; [|eauto]]];
              apply elem_of_app; right; repeat constructor|].
      split; [discriminate|]. split; [discriminate|auto].
    + exists false. split; [constructor|]. split; [discriminate|].
      split; [eauto|]. split; [discriminate|auto].
  - exists false. split; [constructor|]. split; [discriminate|].
    split; [eauto|]. split; [discriminate|auto].
  - destruct (copy2_written env d fs dc dm fsb Hr Hcopy)
      as (q & m & -> & F & Hne & Hq').
    destruct Hres as [[-> ->]|[[x ->] ->]].
    + exists true. split; [eapply WBoth; eauto|].
      split; [intros _; split; [reflexivity|split; [exact Hw|split; [|eauto]]];
              apply elem_of_app; right; repeat constructor|].
      split; [discriminate|]. split; [discriminate|auto].
    + exists false. split; [eapply WBackup; eauto|]. split; [discriminate|].
      split; [eauto|]. split; [discriminate|auto].
Qed.

Lemma written_follow env d fs sc dc dm backup fs1 a k p :
  Written env d fs sc dc dm backup fs1 a → fs !! d = Some (File dc dm) →
  follow fs1 k p = follow fs k p.
Proof.
  intros W Hr.
  assert (Hd : ∀ t, fs !! d ≠ Some (Link t)) by (intros t; congruence).
  destruct W as [| |q m Hb F Hne Hq|q m Hb F Hne Hq].
  - reflexivity.
  - apply follow_insert_nonlink; [exact Hd|discriminate].
  - apply follow_insert_nonlink; [|discriminate].
    intros t. destruct Hq as [Hq|(c0 & m0 & Hq)]; rewrite Hq; discriminate.
  - rewrite follow_insert_nonlink; [| |discriminate].
    + apply follow_insert_nonlink; [|discriminate].
      intros t. destruct Hq as [Hq|(c0 & m0 & Hq)]; rewrite Hq; discriminate.
    + intros t. rewrite lookup_insert_ne by assumption. apply Hd.
Qed.

Lemma written_dest env d fs sc dc dm backup fs1 a :
  Written env d fs sc dc dm backup fs1 a → fs !! d = Some (File dc dm) →
  fs1 !! d = Some (File (if a then dc +:+ sc else dc) dm).
Proof.
  intros W Hr. destruct W as [| |q m Hb F Hne Hq|q m Hb F Hne Hq].
  - exact Hr.
  - apply lookup_insert_eq.
  - rewrite lookup_insert_ne by assumption. exact Hr.
  - apply lookup_insert_eq.
Qed.

Lemma written_other env d fs sc dc dm backup fs1 a p :
  Written env d fs sc dc dm backup fs1 a →
  p ≠ d →
  (backup = true →
   follow fs MAXSYMLINKS (copy_target fs d (backup_path env d)) ≠ Some p) →
  fs1 !! p = fs !! p.
Proof.
  intros W Hp Hb'. destruct W as [| |q m Hb F Hne Hq|q m Hb F Hne Hq].
  - reflexivity.
  - apply lookup_insert_ne. congruence.
  - apply lookup_insert_ne. intros ->. apply (Hb' Hb F).
  - rewrite lookup_insert_ne by congruence.
    apply lookup_insert_ne. intros ->. apply (Hb' Hb F).
Qed.

(** A file stays a file; it holds what it held, or what the destination
    held (it received the backup), or the appended content (it is the
    destination). *)
Lemma written_file env d fs sc dc dm backup fs1 a p c m :
  Written env d fs sc dc dm backup fs1 a → fs !! d = Some (File dc dm) →
  fs !! p = Some (File c m) →
  ∃ c' m', fs1 !! p = Some (File c' m') ∧
           (c' = c ∨ c' = dc ∨ (p = d ∧ a = true ∧ c' = dc +:+ sc)).
Proof.
  intros W Hr Hp. destruct W as [| |q m1 Hb F Hne Hq|q m1 Hb F Hne Hq].
  - eauto.
  - destruct (decide (p = d)) as [->|Hpd].
    + rewrite lookup_insert_eq. eauto 10.
    + rewrite lookup_insert_ne by congruence. eauto.
  - destruct (decide (p = q)) as [->|Hpq].
    + rewrite lookup_insert_eq. eauto 10.
    + rewrite lookup_insert_ne by congruence. eauto.
  - destruct (decide (p = d)) as [->|Hpd].
    + rewrite lookup_insert_eq. eauto 10.
    + rewrite lookup_insert_ne by congruence.
      destruct (decide (p = q)) as [->|Hpq].
      * rewrite lookup_insert_eq. eauto 10.
      * rewrite lookup_insert_ne by congruence. eauto.
Qed.

Lemma append_nil_r (s : string) : s +:+ "" = s.
Proof. induction s as [|a s IH]; [reflexivity|]. rewrite append_cons, IH. reflexivity. Qed.

Lemma is_substring_refl (s : string) : is_substring s s = true.
Proof. apply is_substring_spec. exists "", "". rewrite append_nil_r. reflexivity. Qed.

Lemma is_substring_suffix (d s : string) : is_substring s (d +:+ s) = true.
Proof. apply is_substring_spec. exists d, "". rewrite append_nil_r. reflexivity. Qed.

Lemma is_substring_prefix (d s : string) : is_substring d (d +:+ s) = true.
Proof. apply is_substring_spec. exists "", s. reflexivity. Qed.

Lemma is_substring_empty (d : string) : is_substring "" d = true.
Proof. apply is_substring_spec. exists "", d. reflexivity. Qed.

(** A run, summed up: stopped by a precondition with nothing touched, or
    past the preconditions with what the append step wrote ([fs1], and [a]
    telling whether it appended) and what the outcome then is. *)
Lemma main_outcome env c ps check fs out fs' t :
  main env c ps check fs = (out, fs', t) →
  (fs' = fs ∧ Forall (λ e, is_mutation e = false) t ∧
   ∃ msg, out = Raise (FailJson msg))
  ∨ ∃ sc sm dc dm a fs1 t1,
      stat fs (p_src ps) = Some (File sc sm) ∧ readable sm = true ∧
      stat fs (expanduser env (p_dest ps)) = Some (File dc dm) ∧
      fs !! real_dest fs (expanduser env (p_dest ps)) = Some (File dc dm) ∧
      follow fs MAXSYMLINKS (expanduser env (p_dest ps))
      = Some (real_dest fs (expanduser env (p_dest ps))) ∧
      Written env (real_dest fs (expanduser env (p_dest ps))) fs sc dc dm
        (p_backup ps) fs1 a ∧
      t = (source_events env (p_src ps)
           ++ dest_events fs (expanduser env (p_dest ps))) ++ t1 ∧
      (a = true →
       check = false ∧ (p_force ps = true ∨ is_substring sc dc = false) ∧
       EAppend (real_dest fs (expanduser env (p_dest ps))) ∈ t1) ∧
      ((Forall (λ e, is_mutation e = false) t1 ∧ fs1 = fs)
       ∨ (check = false ∧ (p_force ps = true ∨ is_substring sc dc = false))) ∧
      match out with
      | Ok r =>
          fs' = after_attrs c ps check fs1 ∧
          ∃ cb,
            r = <["changed" := VBool (if attrs_differ c ps fs1 then true else cb.1)]>
                  (res_args (real_dest fs (expanduser env (p_dest ps))) (p_src ps)
                     (if md5_available env then Some (md5_hex env sc) else None)
                     (Some (sha1_hex env sc)) check cb.1 cb.2) ∧
            (a = true → cb.1 = true) ∧
            (a = false →
             fs1 = fs ∧ Forall (λ e, is_mutation e = false) t1 ∧
             cb = (negb (is_substring sc dc), None) ∧
             (check = true ∨ p_force ps = false) ∧
             (check = false → is_substring sc dc = true))
      | Raise x => fs' = fs1 ∧ a = false
      end.
Proof.
  intros H.
  destruct (main_shape env c ps check fs) as [(msg & t0 & H0 & Hq)|
    (sc & sm & dc & dm & r1 & fs1 & t1 & Hs & R & Hd & Hr & F & S & Hm)].
  - left. rewrite H0 in H. injection H as <- <- <-. eauto.
  - right. rewrite Hm in H.
    destruct (step_written _ _ _ _ _ _ _ _ _ _ _ _ S Hr)
      as (a & W & Ha & Hna & Hq & Hdue).
    exists sc, sm, dc, dm, a, fs1, t1.
    repeat (split; [eassumption|]).
    unfold finish in H. destruct r1 as [cb|x]; injection H as <- <- <-.
    + split; [reflexivity|].
      split; [intros E; destruct (Ha E) as (? & ? & ? & ?); auto|].
      split; [exact Hdue|].
      split; [reflexivity|]. exists cb. split; [reflexivity|].
      split.
      * intros E. destruct (Ha E) as (_ & _ & _ & bf & Hbf).
        injection Hbf as ->. reflexivity.
      * intros E. apply (Hq E cb eq_refl).
    + split; [reflexivity|].
      split; [intros E; destruct (Ha E) as (? & ? & ? & ?); auto|].
      split; [exact Hdue|]. split; [reflexivity|].
      destruct a; [|reflexivity].
      destruct (Ha eq_refl) as (_ & _ & _ & bf & Hbf). discriminate.
Qed.

Lemma written_content_dest env d fs sc dc dm backup fs1 a dest :
  Written env d fs sc dc dm backup fs1 a → fs !! d = Some (File dc dm) →
  follow fs MAXSYMLINKS dest = Some d →
  file_content fs1 dest = Some (if a then dc +:+ sc else dc).
Proof.
  intros W Hr F. unfold file_content, stat.
  rewrite (written_follow _ _ _ _ _ _ _ _ _ _ _ W Hr), F.
  rewrite (written_dest _ _ _ _ _ _ _ _ _ W Hr). reflexivity.
Qed.

Lemma quiet_app (l1 l2 : list Event) :
  Forall (λ e, is_mutation e = false) l1 →
  Forall (λ e, is_mutation e = false) l2 →
  Forall (λ e, is_mutation e = false) (l1 ++ l2).
Proof. intros H1 H2. apply Forall_app. auto. Qed.

Lemma prefix_quiet env fs src dest :
  Forall (λ e, is_mutation e = false) (source_events env src ++ dest_events fs dest).
Proof. apply quiet_app; [apply source_events_quiet|apply dest_events_quiet]. Qed.

(** ** What [changed = False] means *)

(** X1. A run that reports [changed = False] has written nothing at all:
    the file system is the one it started from and no write was even
    attempted. *)
Theorem unchanged_report_is_truthful env c ps check fs r fs' t :
  main env c ps check fs = (Ok r, fs', t) →
  r !! "changed" = Some (VBool false) →
  fs' = fs ∧ Forall (λ e, is_mutation e = false) t.
Proof.
  intros H Hc.
  destruct (main_outcome _ _ _ _ _ _ _ _ H) as [(_ & _ & msg & E)|
    (sc & sm & dc & dm & a & fs1 & t1 & Hs & R & Hd & Hr & F & W & -> & Ha & Hdue
     & -> & cb & -> & Hat & Haf)]; [discriminate|].
  rewrite lookup_insert_eq in Hc.
  destruct (attrs_differ c ps fs1) eqn:D; [discriminate|].
  injection Hc as Hc.
  destruct a; [rewrite (Hat eq_refl) in Hc; discriminate|].
  destruct (Haf eq_refl) as (-> & Hq & _).
  unfold after_attrs. rewrite D. split; [reflexivity|].
  apply quiet_app; [apply prefix_quiet|exact Hq].
Qed.

Lemma unchanged_report_is_truthful_witness :
  ∃ r t, main env0 mode_collab (ps_alias false) false fs_alias = (Ok r, fs_alias, t).
Proof.
  pose proof (run_ok (main env0 mode_collab (ps_alias false) false fs_alias)
                ltac:(vm_compute; reflexivity)) as H.
  destruct (unchanged_report_is_truthful env0 mode_collab (ps_alias false) false
              fs_alias _ _ _ H ltac:(vm_compute; reflexivity)) as [E _].
  rewrite E in H. eauto.
Defined.

(** ** The destination only grows *)

(** X2. Whatever the flags and however the run ends, the destination
    afterwards holds what it held, or what it held followed by the source
    content; the latter only in a run outside check mode that appended and
    succeeded. A failed run leaves the destination's content as it was. *)
Theorem destination_only_grows env c ps check fs out fs' t d0 :
  keeps_data c →
  main env c ps check fs = (out, fs', t) →
  file_content fs (expanduser env (p_dest ps)) = Some d0 →
  file_content fs' (expanduser env (p_dest ps)) = Some d0
  ∨ (∃ s r,
       file_content fs (p_src ps) = Some s ∧ out = Ok r ∧ check = false ∧
       EAppend (real_dest fs (expanduser env (p_dest ps))) ∈ t ∧
       file_content fs' (expanduser env (p_dest ps)) = Some (d0 +:+ s)).
Proof.
  intros K H H0.
  destruct (main_outcome _ _ _ _ _ _ _ _ H) as [(-> & _)|
    (sc & sm & dc & dm & a & fs1 & t1 & Hs & R & Hd & Hr & F & W & -> & Ha & Hdue
     & Hout)]; [auto|].
  assert (dc = d0) as ->.
  { unfold file_content in H0. rewrite Hd in H0. congruence. }
  pose proof (written_content_dest _ _ _ _ _ _ _ _ _ _ W Hr F) as Hc.
  destruct out as [r|x].
  - destruct Hout as (-> & _). rewrite after_attrs_content by exact K.
    destruct a; [right|left; exact Hc].
    destruct (Ha eq_refl) as (-> & _ & Hin).
    exists sc, r. unfold file_content at 1. rewrite Hs.
    repeat (split; [reflexivity|]).
    split; [apply elem_of_app; right; exact Hin|exact Hc].
  - destruct Hout as (-> & ->). left. exact Hc.
Qed.

Lemma destination_only_grows_witness :
  ∃ out fs' t,
    main env0 mode_collab (ps_bashrc true true) false fs_read_only = (out, fs', t) ∧
    file_content fs' "/home/u/.bashrc" = Some "# bashrc".
Proof.
  pose proof (run_split (main env0 mode_collab (ps_bashrc true true) false
                           fs_read_only) _ eq_refl) as H.
  do 3 eexists. split; [exact H|].
  destruct (destination_only_grows env0 mode_collab (ps_bashrc true true) false
              fs_read_only _ _ _ "# bashrc" mode_collab_keeps_data H
              ltac:(vm_compute; reflexivity)) as [E|(s & r & _ & E & _)].
  - exact E.
  - exfalso. vm_compute in E. discriminate.
Defined.

(** ** Other files *)



(** ** After a run, the source content is in the destination *)

(** X4. After every run outside check mode that succeeds, with or without
    [force], the destination contains the content the source had. *)
Theorem source_present_after_run env c ps fs r fs' t :
  keeps_data c →
  main env c ps false fs = (Ok r, fs', t) →
  ∃ s d',
    file_content fs (p_src ps) = Some s ∧
    file_content fs' (expanduser env (p_dest ps)) = Some d' ∧
    is_substring s d' = true.
Proof.
  intros K H.
  destruct (main_outcome _ _ _ _ _ _ _ _ H) as [(_ & _ & msg & E)|
    (sc & sm & dc & dm & a & fs1 & t1 & Hs & R & Hd & Hr & F & W & -> & Ha & Hdue
     & -> & cb & -> & Hat & Haf)]; [discriminate|].
  exists sc, (if a then dc +:+ sc else dc).
  unfold file_content at 1. rewrite Hs. split; [reflexivity|].
  rewrite after_attrs_content by exact K.
  split; [exact (written_content_dest _ _ _ _ _ _ _ _ _ _ W Hr F)|].
  destruct a; [apply is_substring_suffix|].
  destruct (Haf eq_refl) as (_ & _ & _ & _ & Hsub). auto.
Qed.

Lemma source_present_after_run_witness :
  ∃ r fs' t d',
    main env0 mode_collab (ps_bashrc false false) false fs_link = (Ok r, fs', t) ∧
    file_content fs' "/home/u/.bashrc" = Some d' ∧
    is_substring "export EDITOR=vi" d' = true.
Proof.
  pose proof (run_ok (main env0 mode_collab (ps_bashrc false false) false fs_link)
                ltac:(vm_compute; reflexivity)) as H.
  destruct (source_present_after_run env0 mode_collab (ps_bashrc false false)
              fs_link _ _ _ mode_collab_keeps_data H) as (s & d' & Hs & Hd & Hsub).
  assert (Es : file_content fs_link (p_src (ps_bashrc false false))
               = Some "export EDITOR=vi") by (vm_compute; reflexivity).
  rewrite Es in Hs. injection Hs as <-.
  do 3 eexists. exists d'. split; [exact H|]. split; [exact Hd|exact Hsub].
Defined.

(** ** Running again *)

(** After a run outside check mode that succeeds, whatever the source now
    holds is in the destination: the source is unchanged, or is the
    destination itself, or has received the backup. *)
Lemma after_run_present env c ps fs r fs' t s' d' :
  keeps_data c →
  main env c ps false fs = (Ok r, fs', t) →
  file_content fs' (p_src ps) = Some s' →
  file_content fs' (expanduser env (p_dest ps)) = Some d' →
  is_substring s' d' = true.
Proof.
  intros K H Hs' Hd'.
  destruct (main_outcome _ _ _ _ _ _ _ _ H) as [(_ & _ & msg & E)|
    (sc & sm & dc & dm & a & fs1 & t1 & Hs & R & Hd & Hr & F & W & -> & Ha & Hdue
     & -> & cb & -> & Hat & Haf)]; [discriminate|].
  rewrite after_attrs_content in Hs', Hd' by exact K.
  rewrite (written_content_dest _ _ _ _ _ _ _ _ _ _ W Hr F) in Hd'.
  injection Hd' as <-.
  unfold file_content, stat in Hs'.
  rewrite (written_follow _ _ _ _ _ _ _ _ _ _ _ W Hr) in Hs'.
  unfold stat in Hs.
  destruct (follow fs MAXSYMLINKS (p_src ps)) as [qs|]; [|discriminate].
  destruct (written_file _ _ _ _ _ _ _ _ _ qs sc sm W Hr Hs)
    as (c' & m' & E & Hc').
  rewrite E in Hs'. injection Hs' as <-.
  destruct Hc' as [->|[->|(-> & -> & ->)]].
  - destruct a; [apply is_substring_suffix|].
    destruct (Haf eq_refl) as (_ & _ & _ & _ & Hsub). auto.
  - destruct a; [apply is_substring_prefix|apply is_substring_refl].
  - apply is_substring_refl.
Qed.

(** Without [force], on a destination that contains the source content,
    the append step writes nothing. *)
Lemma step_present_quiet env d fs sc dc dm backup check r1 fs1 t1 :
  Step env d fs sc dc dm backup false check (r1, fs1, t1) →
  is_substring sc dc = true →
  fs1 = fs ∧ Forall (λ e, is_mutation e = false) t1 ∧
  ∀ cb, r1 = Ok cb → cb.2 = None.
Proof.
  intros S Sub.
  inversion S as [r' t' Hmode Hqt Hcb
                 |pre r' fs1' Hb Hc Hw Hq Hres
                 |pre x Hb Hc Hw Hq Hcopy
                 |pre r' fsb fs1' Hb Hc Hw Hq Hcopy Hres]; subst;
    try (destruct Hw; congruence).
  split; [reflexivity|]. split; [exact Hqt|].
  intros cb E. apply (Hcb cb E).
Qed.

(** X5. Idempotence over runs. Without [force], a run that succeeded
    leaves a file system on which the same request, run again, appends
    nothing, makes no backup and leaves every file's content as it is. *)
Theorem second_run_appends_nothing env c ps fs r fs' t out2 fs2 t2 :
  keeps_data c → p_force ps = false →
  main env c ps false fs = (Ok r, fs', t) →
  main env c ps false fs' = (out2, fs2, t2) →
  Forall (λ e, is_mutation e = false) t2 ∧
  (∀ p, data_of <$> (fs2 !! p) = data_of <$> (fs' !! p)) ∧
  (∀ r2, out2 = Ok r2 → r2 !! "backup_file" = None).
Proof.
  intros K Hf H1 H2.
  destruct (main_shape env c ps false fs') as [(msg & t0 & H0 & Hq)|
    (sc & sm & dc & dm & r1 & fs1 & t1 & Hs & R & Hd & Hr & F & S & Hm)].
  - rewrite H0 in H2. injection H2 as <- <- <-.
    split; [exact Hq|]. split; [reflexivity|discriminate].
  - assert (Sub : is_substring sc dc = true).
    { eapply (after_run_present env c ps fs r fs' t); try eassumption;
        unfold file_content; [rewrite Hs|rewrite Hd]; reflexivity. }
    rewrite Hf in S.
    destruct (step_present_quiet _ _ _ _ _ _ _ _ _ _ _ S Sub) as (-> & Hq & Hbf).
    rewrite Hm in H2.
    pose proof (prefix_quiet env fs' (p_src ps) (expanduser env (p_dest ps)))
      as Hpre.
    set (pre := source_events env (p_src ps)
                ++ dest_events fs' (expanduser env (p_dest ps))) in *.
    clearbody pre. unfold finish in H2.
    destruct r1 as [cb|x]; injection H2 as <- <- <-.
    + split; [apply quiet_app; assumption|].
      split; [intros p; destruct (attrs_differ c ps fs'); [apply K|reflexivity]|].
      intros r2 [= <-]. rewrite lookup_insert_ne by discriminate.
      rewrite res_args_backup_file, (Hbf cb eq_refl). reflexivity.
    + split; [apply quiet_app; assumption|].
      split; [reflexivity|discriminate].
Qed.

Lemma second_run_appends_nothing_witness :
  ∃ r fs' t out2 fs2 t2,
    main env0 mode_collab (ps_bashrc true false) false fs_link = (Ok r, fs', t) ∧
    main env0 mode_collab (ps_bashrc true false) false fs' = (out2, fs2, t2) ∧
    EAppend "/home/u/dotfiles/bashrc" ∈ t ∧
    Forall (λ e, is_mutation e = false) t2.
Proof.
  pose proof (run_ok (main env0 mode_collab (ps_bashrc true false) false fs_link)
                ltac:(vm_compute; reflexivity)) as H1.
  pose proof (run_split
                (main env0 mode_collab (ps_bashrc true false) false
                   (main env0 mode_collab (ps_bashrc true false) false fs_link).1.2)
                _ eq_refl) as H2.
  do 6 eexists. split; [exact H1|]. split; [exact H2|].
  split; [vm_compute; repeat constructor|].
  apply (second_run_appends_nothing env0 mode_collab (ps_bashrc true false)
           fs_link _ _ _ _ _ _ mode_collab_keeps_data eq_refl H1 H2).
Defined.

(** ** Forced runs add up *)

(** With [force], outside check mode, a run that succeeds has appended. *)
Lemma force_run_content env c ps fs r fs' t :
  keeps_data c → p_force ps = true →
  main env c ps false fs = (Ok r, fs', t) →
  ∃ s d,
    file_content fs (p_src ps) = Some s ∧
    file_content fs (expanduser env (p_dest ps)) = Some d ∧
    r !! "changed" = Some (VBool true) ∧
    file_content fs' (expanduser env (p_dest ps)) = Some (d +:+ s) ∧
    (p_backup ps = false →
     follow fs MAXSYMLINKS (p_src ps)
     ≠ follow fs MAXSYMLINKS (expanduser env (p_dest ps)) →
     file_content fs' (p_src ps) = Some s).
Proof.
  intros K Hf H.
  destruct (main_outcome _ _ _ _ _ _ _ _ H) as [(_ & _ & msg & E)|
    (sc & sm & dc & dm & a & fs1 & t1 & Hs & R & Hd & Hr & F & W & -> & Ha & Hdue
     & -> & cb & -> & Hat & Haf)]; [discriminate|].
  destruct a.
  2:{ destruct (Haf eq_refl) as (_ & _ & _ & [?|?] & _); congruence. }
  exists sc, dc. unfold file_content at 1 2. rewrite Hs, Hd.
  split; [reflexivity|]. split; [reflexivity|].
  split.
  { rewrite lookup_insert_eq, (Hat eq_refl).
    destruct (attrs_differ _ _ _); reflexivity. }
  rewrite !after_attrs_content by exact K.
  split; [exact (written_content_dest _ _ _ _ _ _ _ _ _ _ W Hr F)|].
  intros Hb Hne. rewrite F in Hne.
  unfold file_content, stat.
  rewrite (written_follow _ _ _ _ _ _ _ _ _ _ _ W Hr).
  unfold stat in Hs.
  destruct (follow fs MAXSYMLINKS (p_src ps)) as [qs|]; [|discriminate].
  rewrite (written_other _ _ _ _ _ _ _ _ _ qs W); [rewrite Hs; reflexivity| |].
  - intros ->. apply Hne. reflexivity.
  - rewrite Hb. discriminate.
Qed.

(** X6. With [force], two runs in a row that succeed append twice: the
    destination ends with what it held, then the source content, then what
    the source holds at the second run, which is the same content again
    when no backup is made and the source is not the destination itself. *)
Theorem forced_runs_add_up env c ps fs r fs' t r2 fs2 t2 :
  keeps_data c → p_force ps = true →
  main env c ps false fs = (Ok r, fs', t) →
  main env c ps false fs' = (Ok r2, fs2, t2) →
  ∃ s d s',
    file_content fs (p_src ps) = Some s ∧
    file_content fs (expanduser env (p_dest ps)) = Some d ∧
    file_content fs' (p_src ps) = Some s' ∧
    file_content fs2 (expanduser env (p_dest ps)) = Some ((d +:+ s) +:+ s') ∧
    (p_backup ps = false →
     follow fs MAXSYMLINKS (p_src ps)
     ≠ follow fs MAXSYMLINKS (expanduser env (p_dest ps)) →
     s' = s).
Proof.
  intros K Hf H1 H2.
  destruct (force_run_content _ _ _ _ _ _ _ K Hf H1)
    as (s & d & Hs & Hd & _ & Hd' & Hsame).
  destruct (force_run_content _ _ _ _ _ _ _ K Hf H2)
    as (s' & d' & Hs' & Hd2 & _ & Hd2' & _).
  rewrite Hd' in Hd2. injection Hd2 as <-.
  exists s, d, s'. repeat (split; [assumption|]).
  intros Hb Hne. specialize (Hsame Hb Hne). congruence.
Qed.

Lemma forced_runs_add_up_witness :
  ∃ r fs' t r2 fs2 t2,
    main env0 mode_collab (ps_alias true) false fs_alias = (Ok r, fs', t) ∧
    main env0 mode_collab (ps_alias true) false fs' = (Ok r2, fs2, t2) ∧
    file_content fs2 "/home/u/.bashrc"
    = Some ((alias_line +:+ alias_line) +:+ alias_line).
Proof.
  pose proof (run_ok (main env0 mode_collab (ps_alias true) false fs_alias)
                ltac:(vm_compute; reflexivity)) as H1.
  pose proof (run_ok
                (main env0 mode_collab (ps_alias true) false
                   (main env0 mode_collab (ps_alias true) false fs_alias).1.2)
                ltac:(vm_compute; reflexivity)) as H2.
  do 6 eexists. split; [exact H1|]. split; [exact H2|].
  destruct (forced_runs_add_up env0 mode_collab (ps_alias true) fs_alias
              _ _ _ _ _ _ mode_collab_keeps_data eq_refl H1 H2)
    as (s & d & s' & Hs & Hd & _ & Hc & Hsame).
  assert (Es : file_content fs_alias (p_src (ps_alias true)) = Some alias_line)
    by (vm_compute; reflexivity).
  assert (Ed : file_content fs_alias (expanduser env0 (p_dest (ps_alias true)))
               = Some alias_line) by (vm_compute; reflexivity).
  rewrite Es in Hs. rewrite Ed in Hd. injection Hs as <-. injection Hd as <-.
  rewrite (Hsame eq_refl) in Hc; [exact Hc|].
  intros E. vm_compute in E. discriminate.
Defined.

(** ** What counts as present *)

(** X7. Presence is containment anywhere: without [force], when the
    readable destination holds the source content at any position, between
    any text [a] and [b] and not only as whole lines, the run succeeds and
    writes nothing. *)
Theorem content_found_anywhere env c ps fs s a b :
  p_force ps = false →
  read_file fs (p_src ps) = inr s →
  read_file fs (expanduser env (p_dest ps)) = inr (a +:+ s +:+ b) →
  ∃ r t,
    main env c ps false fs = (Ok r, after_attrs c ps false fs, t) ∧
    Forall (λ e, is_mutation e = false) t ∧
    r !! "changed" = Some (VBool (attrs_differ c ps fs)).
Proof.
  intros Hf Rs Rd.
  destruct (read_file_ok _ _ _ Rs) as (sm & Hs & R).
  destruct (read_file_ok _ _ _ Rd) as (dm & Hd & R').
  destruct (stat_real_dest fs _ _ Hd) as (Hr & F & Hn).
  assert (Sub : is_substring s (a +:+ s +:+ b) = true)
    by (apply is_substring_spec; eauto).
  rewrite (main_run env c ps false fs s sm _ dm Hs R Hd), Hf.
  rewrite (append_step_present env _ _ fs s _ sm dm Hs R Hr _ R' Sub).
  unfold finish. cbn [fst snd]. fold (after_attrs c ps false fs).
  do 2 eexists. split; [reflexivity|].
  split; [apply quiet_app; [apply prefix_quiet|repeat constructor]|].
  rewrite lookup_insert_eq. destruct (attrs_differ c ps fs); reflexivity.
Qed.

Definition fs_inside_line : FS :=
  <["/tmp/source" := File "ls -la" rw]>
    {["/home/u/.bashrc" := File "alias ll='ls -la'" rw]}.

Lemma content_found_anywhere_witness :
  ∃ r t,
    main env0 mode_collab (ps_alias false) false fs_inside_line
    = (Ok r, fs_inside_line, t) ∧
    r !! "changed" = Some (VBool false).
Proof.
  destruct (content_found_anywhere env0 mode_collab (ps_alias false)
              fs_inside_line "ls -la" "alias ll='" "'" eq_refl)
    as (r & t & H & _ & Hc); try (vm_compute; reflexivity).
  exists r, t. split; [exact H|exact Hc].
Defined.

(** ** An empty source *)

(** X8. An empty source counts as present in every destination. The
    destination's content is never changed by it; without [force] nothing
    is appended, while with [force] the run that succeeds appends the
    empty content and reports [changed = True] all the same. *)
Theorem empty_source env c ps fs out fs' t d0 :
  keeps_data c →
  file_content fs (p_src ps) = Some "" →
  file_content fs (expanduser env (p_dest ps)) = Some d0 →
  main env c ps false fs = (out, fs', t) →
  file_content fs' (expanduser env (p_dest ps)) = Some d0 ∧
  (p_force ps = false →
   EAppend (real_dest fs (expanduser env (p_dest ps))) ∉ t) ∧
  (p_force ps = true → ∀ r, out = Ok r →
   r !! "changed" = Some (VBool true) ∧
   EAppend (real_dest fs (expanduser env (p_dest ps))) ∈ t).
Proof.
  intros K Hs0 Hd0 H.
  destruct (main_outcome _ _ _ _ _ _ _ _ H) as [(-> & Hq & msg & ->)|
    (sc & sm & dc & dm & a & fs1 & t1 & Hs & R & Hd & Hr & F & W & -> & Ha & Hdue
     & Hout)].
  - split; [exact Hd0|]. split; [|discriminate].
    intros _ Hin. eapply quiet_no_mutation; eauto.
  - assert (sc = "") as ->.
    { unfold file_content in Hs0. rewrite Hs in Hs0. congruence. }
    assert (dc = d0) as ->.
    { unfold file_content in Hd0. rewrite Hd in Hd0. congruence. }
    pose proof (written_content_dest _ _ _ _ _ _ _ _ _ _ W Hr F) as Hc.
    rewrite append_nil_r in Hc.
    assert (Hc' : file_content fs1 (expanduser env (p_dest ps)) = Some d0)
      by (destruct a; exact Hc).
    assert (Hcont : file_content fs' (expanduser env (p_dest ps)) = Some d0).
    { destruct out as [r|x].
      - destruct Hout as (-> & _). rewrite after_attrs_content by exact K.
        exact Hc'.
      - destruct Hout as (-> & _). exact Hc'. }
    split; [exact Hcont|]. split.
    + intros Hf Hin.
      destruct Hdue as [[Hq _]|(_ & [Hf'|Hsub])].
      * eapply quiet_no_mutation; [|exact Hin|reflexivity].
        apply quiet_app; [apply prefix_quiet|exact Hq].
      * congruence.
      * rewrite is_substring_empty in Hsub. discriminate.
    + intros Hf r ->. destruct Hout as (_ & cb & -> & Hat & Haf).
      destruct a.
      2:{ destruct (Haf eq_refl) as (_ & _ & _ & [?|?] & _); congruence. }
      split.
      * rewrite lookup_insert_eq, (Hat eq_refl).
        destruct (attrs_differ _ _ _); reflexivity.
      * destruct (Ha eq_refl) as (_ & _ & Hin).
        apply elem_of_app. right. exact Hin.
Qed.

Definition fs_empty_source : FS :=
  <["/tmp/source" := File "" rw]> {["/home/u/.bashrc" := File "# bashrc" rw]}.

Lemma empty_source_witness :
  ∃ r fs' t,
    main env0 mode_collab (ps_alias true) false fs_empty_source = (Ok r, fs', t) ∧
    r !! "changed" = Some (VBool true) ∧
    file_content fs' "/home/u/.bashrc" = Some "# bashrc".
Proof.
  pose proof (run_ok (main env0 mode_collab (ps_alias true) false fs_empty_source)
                ltac:(vm_compute; reflexivity)) as H.
  destruct (empty_source env0 mode_collab (ps_alias true) fs_empty_source
              _ _ _ "# bashrc" mode_collab_keeps_data
              ltac:(vm_compute; reflexivity) ltac:(vm_compute; reflexivity) H)
    as (Hc & _ & Hf).
  destruct (Hf eq_refl _ eq_refl) as [Hch _].
  do 3 eexists. split; [exact H|]. split; [exact Hch|exact Hc].
Defined.

(** ** The fields of the result *)






(** ** Check mode as a forecast *)

(** The content verdict of a run in check mode that succeeds. *)
Lemma check_run_verdict env c ps fs r fs' t :
  main env c ps true fs = (Ok r, fs', t) →
  ∃ s d,
    file_content fs (p_src ps) = Some s ∧
    file_content fs (expanduser env (p_dest ps)) = Some d ∧
    r !! "changed" = Some (VBool (negb (is_substring s d) || attrs_differ c ps fs)).
Proof.
  intros H.
  destruct (main_outcome _ _ _ _ _ _ _ _ H) as [(_ & _ & msg & E)|
    (sc & sm & dc & dm & a & fs1 & t1 & Hs & R & Hd & Hr & F & W & -> & Ha & Hdue
     & -> & cb & -> & Hat & Haf)]; [discriminate|].
  destruct a; [destruct (Ha eq_refl) as (? & _); discriminate|].
  destruct (Haf eq_refl) as (-> & _ & -> & _).
  exists sc, dc. unfold file_content. rewrite Hs, Hd.
  split; [reflexivity|]. split; [reflexivity|].
  rewrite lookup_insert_eq. cbn [fst].
  destruct (attrs_differ c ps fs), (is_substring sc dc); reflexivity.
Qed.

(** Whether a run outside check mode that succeeds has appended. *)
Lemma real_run_appends env c ps fs r fs' t :
  main env c ps false fs = (Ok r, fs', t) →
  ∃ s d,
    file_content fs (p_src ps) = Some s ∧
    file_content fs (expanduser env (p_dest ps)) = Some d ∧
    (EAppend (real_dest fs (expanduser env (p_dest ps))) ∈ t
     ↔ p_force ps = true ∨ is_substring s d = false).
Proof.
  intros H.
  destruct (main_outcome _ _ _ _ _ _ _ _ H) as [(_ & _ & msg & E)|
    (sc & sm & dc & dm & a & fs1 & t1 & Hs & R & Hd & Hr & F & W & -> & Ha & Hdue
     & -> & cb & -> & Hat & Haf)]; [discriminate|].
  exists sc, dc. unfold file_content. rewrite Hs, Hd.
  split; [reflexivity|]. split; [reflexivity|].
  destruct a.
  - destruct (Ha eq_refl) as (_ & Hw & Hin). split; [auto|].
    intros _. apply elem_of_app. right. exact Hin.
  - destruct (Haf eq_refl) as (_ & Hq & _ & [?|Hf] & Hsub); [discriminate|].
    specialize (Hsub eq_refl). split.
    + intros Hin. exfalso. eapply quiet_no_mutation; [|exact Hin|reflexivity].
      apply quiet_app; [apply prefix_quiet|exact Hq].
    + intros [?|?]; congruence.
Qed.

(** X10. Without [force], check mode forecasts the run: when both the run
    in check mode and the run outside it succeed and no attribute is to be
    changed, check mode reports [changed] exactly when the real run
    appends. *)
Theorem check_mode_forecast env c ps fs rc fsc tc r fs' t :
  p_force ps = false → attrs_differ c ps fs = false →
  main env c ps true fs = (Ok rc, fsc, tc) →
  main env c ps false fs = (Ok r, fs', t) →
  (rc !! "changed" = Some (VBool true)
   ↔ EAppend (real_dest fs (expanduser env (p_dest ps))) ∈ t).
Proof.
  intros Hf Hd Hc Hr.
  destruct (check_run_verdict _ _ _ _ _ _ _ Hc) as (s & d & Hs & Hdc & Hv).
  destruct (real_run_appends _ _ _ _ _ _ _ Hr) as (s' & d' & Hs' & Hd' & Ha).
  assert (s' = s) as -> by congruence. assert (d' = d) as -> by congruence.
  rewrite Hv, Hd, orb_false_r, Ha, Hf. split.
  - intros [= E]. right. apply negb_true_iff, E.
  - intros [?|E]; [discriminate|]. rewrite E. reflexivity.
Qed.

Lemma check_mode_forecast_witness :
  ∃ rc fsc tc r fs' t,
    main env0 mode_collab (ps_bashrc false false) true fs_link = (Ok rc, fsc, tc) ∧
    main env0 mode_collab (ps_bashrc false false) false fs_link = (Ok r, fs', t) ∧
    rc !! "changed" = Some (VBool true) ∧
    EAppend "/home/u/dotfiles/bashrc" ∈ t.
Proof.
  pose proof (run_ok (main env0 mode_collab (ps_bashrc false false) true fs_link)
                ltac:(vm_compute; reflexivity)) as Hc.
  pose proof (run_ok (main env0 mode_collab (ps_bashrc false false) false fs_link)
                ltac:(vm_compute; reflexivity)) as Hr.
  do 6 eexists. split; [exact Hc|]. split; [exact Hr|].
  assert (Hv : result_of (main env0 mode_collab (ps_bashrc false false) true fs_link)
               !! "changed" = Some (VBool true)) by (vm_compute; reflexivity).
  split; [exact Hv|].
  apply (check_mode_forecast env0 mode_collab (ps_bashrc false false) fs_link
           _ _ _ _ _ _ eq_refl ltac:(vm_compute; reflexivity) Hc Hr) in Hv.
  assert (Ed : real_dest fs_link (expanduser env0 (p_dest (ps_bashrc false false)))
               = "/home/u/dotfiles/bashrc") by (vm_compute; reflexivity).
  rewrite Ed in Hv. exact Hv.
Defined.

(** X11. With [force], check mode does not forecast the run: on a
    destination that already contains the source content, with no
    attribute to change, check mode reports [changed = False], while the
    run outside check mode appends the content once more and reports
    [changed = True]. *)
Theorem check_mode_ignores_force env c ps fs rc fsc tc r fs' t s d :
  keeps_data c →
  p_force ps = true → attrs_differ c ps fs = false →
  file_content fs (p_src ps) = Some s →
  file_content fs (expanduser env (p_dest ps)) = Some d →
  is_substring s d = true →
  main env c ps true fs = (Ok rc, fsc, tc) →
  main env c ps false fs = (Ok r, fs', t) →
  rc !! "changed" = Some (VBool false) ∧
  r !! "changed" = Some (VBool true) ∧
  file_content fs' (expanduser env (p_dest ps)) = Some (d +:+ s).
Proof.
  intros K Hf Hd Hs Hdc Sub Hc Hr.
  destruct (check_run_verdict _ _ _ _ _ _ _ Hc) as (s1 & d1 & Hs1 & Hd1 & Hv).
  destruct (force_run_content _ _ _ _ _ _ _ K Hf Hr)
    as (s2 & d2 & Hs2 & Hd2 & Hch & Hcont & _).
  assert (s1 = s) as -> by congruence. assert (d1 = d) as -> by congruence.
  assert (s2 = s) as -> by congruence. assert (d2 = d) as -> by congruence.
  rewrite Hv, Sub, Hd. auto.
Qed.

Lemma check_mode_ignores_force_witness :
  ∃ rc fsc tc r fs' t,
    main env0 mode_collab (ps_alias true) true fs_alias = (Ok rc, fsc, tc) ∧
    main env0 mode_collab (ps_alias true) false fs_alias = (Ok r, fs', t) ∧
    rc !! "changed" = Some (VBool false) ∧
    r !! "changed" = Some (VBool true).
Proof.
  pose proof (run_ok (main env0 mode_collab (ps_alias true) true fs_alias)
                ltac:(vm_compute; reflexivity)) as Hc.
  pose proof (run_ok (main env0 mode_collab (ps_alias true) false fs_alias)
                ltac:(vm_compute; reflexivity)) as Hr.
  destruct (check_mode_ignores_force env0 mode_collab (ps_alias true) fs_alias
              _ _ _ _ _ _ alias_line alias_line mode_collab_keeps_data eq_refl
              ltac:(vm_compute; reflexivity) ltac:(vm_compute; reflexivity)
              ltac:(vm_compute; reflexivity) ltac:(vm_compute; reflexivity)
              Hc Hr) as (H1 & H2 & _).
  do 6 eexists. split; [exact Hc|]. split; [exact Hr|]. split; assumption.
Defined.

(** ** A destination that is a dangling link *)

Definition fs_dangling : FS :=
  <["/tmp/source" := File alias_line rw]>
    {["/home/u/.bashrc" := Link "/home/u/dotfiles/bashrc"]}.

Lemma follow_link (fs : FS) n p target :
  fs !! p = Some (Link target) → follow fs (S n) p = follow fs n target.
Proof. intros H. simpl. rewrite H. reflexivity. Qed.

Lemma stat_dangling (fs : FS) p target :
  fs !! p = Some (Link target) → stat fs target = None → stat fs p = None.
Proof.
  unfold stat. change MAXSYMLINKS with (S 39). generalize 39. intros n Hl Ht.
  rewrite (follow_link fs n p target Hl).
  destruct (follow fs n target) as [q|] eqn:F; [|reflexivity].
  rewrite (follow_mono fs n (S n) target q F) in Ht by lia. exact Ht.
Qed.

(** X12. A destination that is a symbolic link to a missing path counts as
    missing: with a readable source file the run fails with the
    missing-destination message, whatever the flags, and creates
    nothing, the target of the link included. *)
Theorem dangling_link_is_missing env c ps check fs sc sm target :
  stat fs (p_src ps) = Some (File sc sm) → readable sm = true →
  fs !! expanduser env (p_dest ps) = Some (Link target) →
  stat fs target = None →
  ∃ t,
    main env c ps check fs =
      (Raise (FailJson (msg_no_dest (expanduser env (p_dest ps)))), fs, t) ∧
    Forall (λ e, is_mutation e = false) t.
Proof.
  intros Hs R Hl Ht.
  pose proof (stat_dangling fs _ target Hl Ht) as Hd.
  rewrite (main_dest_missing env c ps check fs sc sm Hs R Hd).
  eexists. split; [reflexivity|].
  apply quiet_app; [apply source_events_quiet|repeat constructor].
Qed.

Lemma dangling_link_is_missing_witness :
  ∃ t,
    main env0 mode_collab (ps_alias true) false fs_dangling =
      (Raise (FailJson "Destination /home/u/.bashrc doesn't exists"),
       fs_dangling, t).
Proof.
  destruct (dangling_link_is_missing env0 mode_collab (ps_alias true) false
              fs_dangling alias_line rw "/home/u/dotfiles/bashrc")
    as (t & H & _); try (vm_compute; reflexivity).
  exists t. exact H.
Defined.

(** * The action plugin: [ActionModule.run]

    [src/action_plugins/concatfile.py] runs on the controller. It stages
    the source file on the target and has the module run there. Its
    collaborators (the loader, the connection, the play context, the
    module executor) are fields of [Plugin]; one that raises returns
    [None], and the exception leaves [run], which catches nothing. *)

Module ActionModule.

Abbreviation Args := (gmap string Value) (only parsing).
Abbreviation Result := (gmap string Value) (only parsing).

(** What the plugin asks of the target, in order. *)
Inductive Op :=
| MakeTmpPath
| PutFile (src dst : path)
| RemoteChmod (mode : string) (p : path)
| ExecuteModule (name : string) (args : Args).

Record Plugin := {
  base_result : Result;          (* super(ActionModule, self).run(tmp, task_vars) *)
  task_args : Args;              (* self._task.args *)
  role_path : option path;       (* self._task._role and its _role_path *)
  get_basedir : path;            (* self._loader.get_basedir() *)
  path_dwim_relative : path → string → Value → option path;
  make_tmp_path : option path;   (* self._make_tmp_path() *)
  join_path : path → string → path;
  put_file : path → path → option unit;
  become : bool;
  become_user : string;
  check_mode : bool;
  remote_chmod : string → path → option unit;
  execute_module : string → Args → option Result
}.

(** A computation that logs its requests and may stop on an exception. *)
Definition T (A : Type) : Type := option A * list Op.

Definition tret {A} (a : A) : T A := (Some a, []).

Definition tbind {A B} (m : T A) (k : A → T B) : T B :=
  match m.1 with
  | Some a => ((k a).1, m.2 ++ (k a).2)
  | None => (None, m.2)
  end.

Definition request {A} (op : Op) (r : option A) : T A := (r, [op]).

Definition local {A} (r : option A) : T A := (r, []).

Declare Scope act_scope.
Notation "x <- m ;; k" := (tbind m (λ x, k))
  (at level 100, m at next level, right associativity) : act_scope.
Notation "m ;;; k" := (tbind m (λ _, k))
  (at level 100, right associativity) : act_scope.
Local Open Scope act_scope.

(** Lines 40-43: the source, looked up under [files] of the role or of the
    base directory. *)
Definition resolve_src (self : Plugin) (src : Value) : T path :=
  match role_path self with
  | Some rp => local (path_dwim_relative self rp "files" src)
  | None => local (path_dwim_relative self (get_basedir self) "files" src)
  end.

(** Lines 44-45: the directory given is kept when its name has [-tmp-]. *)
Definition staging_dir (self : Plugin) (tmp : option string) : T path :=
  match tmp with
  | None => request MakeTmpPath (make_tmp_path self)
  | Some t =>
      if negb (is_substring "-tmp-" t)
      then request MakeTmpPath (make_tmp_path self)
      else tret t
  end.

(** Lines 50-52. *)
Definition grant_read (self : Plugin) (tmp_src : path) : T unit :=
  if become self && negb (String.eqb (become_user self) "root") then
    if negb (check_mode self)
    then request (RemoteChmod "a+r" tmp_src) (remote_chmod self "a+r" tmp_src)
    else tret tt
  else tret tt.

(** Lines 27-61. *)
Definition run (self : Plugin) (tmp : option string) : T Result :=
  let result := base_result self in
  match task_args self !! "src" with
  | None | Some VNone =>
      tret (<["msg" := VStr "src is required"]>
              (<["failed" := VBool true]> result))
  | Some src =>
      src <- resolve_src self src ;;
      tmp <- staging_dir self tmp ;;
      let tmp_src := join_path self tmp (basename src) in
      request (PutFile src tmp_src) (put_file self src tmp_src) ;;;
      grant_read self tmp_src ;;;
      let new_module_args := <["src" := VStr tmp_src]> (task_args self) in
      r <- request (ExecuteModule "concatfile" new_module_args)
             (execute_module self "concatfile" new_module_args) ;;
      tret (r ∪ result)
  end.

End ActionModule.

(** ** Properties of [ActionModule.run] *)

(** The task has no source: the key is absent or holds [None]. *)
Definition src_missing (self : ActionModule.Plugin) : Prop :=
  ActionModule.task_args self !! "src" = None ∨
  ActionModule.task_args self !! "src" = Some VNone.

(** The directory [files] is looked up in. *)
Definition files_root (self : ActionModule.Plugin) : path :=
  match ActionModule.role_path self with
  | Some rp => rp
  | None => ActionModule.get_basedir self
  end.

(** The requests made for the staging directory and for the permission. *)
Definition tmp_ops (tmp : option string) : list ActionModule.Op :=
  match tmp with
  | None => [ActionModule.MakeTmpPath]
  | Some t => if is_substring "-tmp-" t then [] else [ActionModule.MakeTmpPath]
  end.

Definition unprivileged (self : ActionModule.Plugin) : bool :=
  ActionModule.become self
  && negb (String.eqb (ActionModule.become_user self) "root").

Definition chmod_ops (self : ActionModule.Plugin) (staged : path)
    : list ActionModule.Op :=
  if unprivileged self && negb (ActionModule.check_mode self)
  then [ActionModule.RemoteChmod "a+r" staged] else [].

Definition is_execute (o : ActionModule.Op) : bool :=
  match o with ActionModule.ExecuteModule _ _ => true | _ => false end.

Definition is_put (o : ActionModule.Op) : bool :=
  match o with ActionModule.PutFile _ _ => true | _ => false end.

Lemma resolve_src_run self v :
  ActionModule.resolve_src self v =
  (ActionModule.path_dwim_relative self (files_root self) "files" v, []).
Proof.
  unfold ActionModule.resolve_src, files_root, ActionModule.local.
  destruct (ActionModule.role_path self); reflexivity.
Qed.

Lemma staging_dir_run self tmp :
  ∃ o, ActionModule.staging_dir self tmp = (o, tmp_ops tmp) ∧
       ∀ dir, o = Some dir →
         (tmp = Some dir ∧ is_substring "-tmp-" dir = true) ∨
         (ActionModule.make_tmp_path self = Some dir ∧
          ∀ t, tmp = Some t → is_substring "-tmp-" t = false).
Proof.
  unfold ActionModule.staging_dir, tmp_ops, ActionModule.request,
    ActionModule.tret.
  destruct tmp as [t|].
  - destruct (is_substring "-tmp-" t) eqn:E; simpl.
    + eexists. split; [reflexivity|]. intros dir [= <-]. left. auto.
    + eexists. split; [reflexivity|]. intros dir ->. right.
      split; [reflexivity|]. intros t' [= <-]. exact E.
  - eexists. split; [reflexivity|]. intros dir ->. right.
    split; [reflexivity|]. intros t [=].
Qed.

Lemma grant_read_run self staged :
  ∃ o, ActionModule.grant_read self staged = (o, chmod_ops self staged) ∧
       (o = None → ActionModule.remote_chmod self "a+r" staged = None).
Proof.
  unfold ActionModule.grant_read, chmod_ops, unprivileged,
    ActionModule.request, ActionModule.tret.
  destruct (ActionModule.become self
            && negb (String.eqb (ActionModule.become_user self) "root"));
    simpl; [|eexists; split; [reflexivity|discriminate]].
  destruct (ActionModule.check_mode self); simpl;
    eexists; (split; [reflexivity|]); [discriminate|auto].
Qed.

(** What follows the choice of the staged path. *)
Inductive After (self : ActionModule.Plugin) (local staged : path)
    : option ActionModule.Result → list ActionModule.Op → Prop :=
| PutFailed :
    ActionModule.put_file self local staged = None →
    After self local staged None []
| ChmodFailed :
    ActionModule.put_file self local staged = Some tt →
    ActionModule.remote_chmod self "a+r" staged = None →
    After self local staged None (chmod_ops self staged)
| Executed :
    ActionModule.put_file self local staged = Some tt →
    After self local staged
      ((λ m, m ∪ ActionModule.base_result self)
         <$> ActionModule.execute_module self "concatfile"
               (<["src" := VStr staged]> (ActionModule.task_args self)))
      (chmod_ops self staged
       ++ [ActionModule.ExecuteModule "concatfile"
             (<["src" := VStr staged]> (ActionModule.task_args self))]).

(** How far a run with a source gets, with everything it has asked for. *)
Inductive Progress (self : ActionModule.Plugin) (tmp : option string)
    : option ActionModule.Result → list ActionModule.Op → Prop :=
| NotResolved v :
    ActionModule.task_args self !! "src" = Some v → v ≠ VNone →
    ActionModule.path_dwim_relative self (files_root self) "files" v = None →
    Progress self tmp None []
| NoStagingDir v local :
    ActionModule.task_args self !! "src" = Some v → v ≠ VNone →
    ActionModule.path_dwim_relative self (files_root self) "files" v = Some local →
    Progress self tmp None (tmp_ops tmp)
| Staged v local dir rest res :
    ActionModule.task_args self !! "src" = Some v → v ≠ VNone →
    ActionModule.path_dwim_relative self (files_root self) "files" v = Some local →
    (tmp = Some dir ∧ is_substring "-tmp-" dir = true) ∨
      (ActionModule.make_tmp_path self = Some dir ∧
       ∀ t, tmp = Some t → is_substring "-tmp-" t = false) →
    After self local (ActionModule.join_path self dir (basename local)) res rest →
    Progress self tmp res
      (tmp_ops tmp
       ++ ActionModule.PutFile local
            (ActionModule.join_path self dir (basename local)) :: rest).

Lemma run_missing self tmp :
  src_missing self →
  ActionModule.run self tmp =
  (Some (<["msg" := VStr "src is required"]>
           (<["failed" := VBool true]> (ActionModule.base_result self))), []).
Proof.
  unfold ActionModule.run. intros [E|E]; rewrite E; reflexivity.
Qed.

Lemma tbind_some {A B} (m : ActionModule.T A) (k : A → ActionModule.T B) a t :
  m = (Some a, t) → ActionModule.tbind m k = ((k a).1, t ++ (k a).2).
Proof. intros ->. reflexivity. Qed.

Lemma tbind_none {A B} (m : ActionModule.T A) (k : A → ActionModule.T B) t :
  m = (None, t) → ActionModule.tbind m k = (None, t).
Proof. intros ->. reflexivity. Qed.

(** Lines 48-60, once the staged path is known. *)
Definition stage_and_execute (self : ActionModule.Plugin) (local staged : path)
    : ActionModule.T ActionModule.Result :=
  ActionModule.tbind
    (ActionModule.request (ActionModule.PutFile local staged)
       (ActionModule.put_file self local staged)) (λ _,
  ActionModule.tbind (ActionModule.grant_read self staged) (λ _,
  ActionModule.tbind
    (ActionModule.request
       (ActionModule.ExecuteModule "concatfile"
          (<["src" := VStr staged]> (ActionModule.task_args self)))
       (ActionModule.execute_module self "concatfile"
          (<["src" := VStr staged]> (ActionModule.task_args self)))) (λ r,
  ActionModule.tret (r ∪ ActionModule.base_result self)))).

Lemma after_staging self local staged :
  ∃ rest,
    After self local staged (stage_and_execute self local staged).1 rest ∧
    (stage_and_execute self local staged).2
    = ActionModule.PutFile local staged :: rest.
Proof.
  unfold stage_and_execute.
  destruct (ActionModule.put_file self local staged) as [[]|] eqn:Ep.
  2:{ rewrite (tbind_none _ _ [ActionModule.PutFile local staged])
        by reflexivity.
      eexists. split; [apply PutFailed; exact Ep|reflexivity]. }
  rewrite (tbind_some _ _ tt [ActionModule.PutFile local staged])
    by reflexivity.
  cbn beta. cbn [fst snd app].
  destruct (grant_read_run self staged) as (g & Eg & Hg).
  destruct g as [[]|].
  2:{ rewrite (tbind_none _ _ _ Eg). eexists. split; [|reflexivity].
      apply ChmodFailed; [exact Ep|apply Hg; reflexivity]. }
  rewrite (tbind_some _ _ _ _ Eg). cbn beta. cbn [fst snd].
  pose proof (Executed self local staged Ep) as A.
  unfold ActionModule.tbind, ActionModule.request, ActionModule.tret.
  cbn [fst snd].
  destruct (ActionModule.execute_module self "concatfile"
              (<["src" := VStr staged]> (ActionModule.task_args self)))
    as [m|] eqn:Ee; cbn [fst snd]; rewrite ?app_nil_r;
    eexists; (split; [exact A|reflexivity]).
Qed.

Lemma run_progress self tmp :
  ¬ src_missing self →
  Progress self tmp (ActionModule.run self tmp).1 (ActionModule.run self tmp).2.
Proof.
  intros Hm.
  destruct (ActionModule.task_args self !! "src") as [v|] eqn:Ev;
    [|exfalso; apply Hm; left; exact Ev].
  assert (Hv : v ≠ VNone) by (intros ->; apply Hm; right; exact Ev).
  assert (ActionModule.run self tmp =
    ActionModule.tbind (ActionModule.resolve_src self v) (λ src,
    ActionModule.tbind (ActionModule.staging_dir self tmp) (λ dir,
    stage_and_execute self src
      (ActionModule.join_path self dir (basename src))))) as ->.
  { unfold ActionModule.run. rewrite Ev. destruct v; [reflexivity..|congruence]. }
  destruct (ActionModule.path_dwim_relative self (files_root self) "files" v)
    as [local|] eqn:El.
  2:{ rewrite (tbind_none _ _ [])
        by (rewrite resolve_src_run, El; reflexivity).
      eapply NotResolved; eassumption. }
  rewrite (tbind_some _ _ local [])
    by (rewrite resolve_src_run, El; reflexivity).
  cbn beta. cbn [fst snd app].
  destruct (staging_dir_run self tmp) as (o & Es & Hdir).
  destruct o as [dir|].
  2:{ rewrite (tbind_none _ _ _ Es). eapply NoStagingDir; eassumption. }
  rewrite (tbind_some _ _ _ _ Es). cbn beta. cbn [fst snd].
  specialize (Hdir dir eq_refl).
  destruct (after_staging self local
              (ActionModule.join_path self dir (basename local)))
    as (rest & A & ->).
  eapply Staged; eassumption.
Qed.

Definition failed_result (self : ActionModule.Plugin) : ActionModule.Result :=
  <["msg" := VStr "src is required"]>
    (<["failed" := VBool true]> (ActionModule.base_result self)).

Lemma run_cases self tmp :
  (src_missing self ∧
   ActionModule.run self tmp = (Some (failed_result self), [])) ∨
  (¬ src_missing self ∧
   Progress self tmp (ActionModule.run self tmp).1 (ActionModule.run self tmp).2).
Proof.
  destruct (ActionModule.task_args self !! "src") as [v|] eqn:E.
  - destruct v as [s|b|].
    + right. assert (¬ src_missing self) as N
        by (intros [H|H]; rewrite E in H; discriminate).
      split; [exact N|apply run_progress, N].
    + right. assert (¬ src_missing self) as N
        by (intros [H|H]; rewrite E in H; discriminate).
      split; [exact N|apply run_progress, N].
    + left. split; [right; exact E|apply run_missing; right; exact E].
  - left. split; [left; exact E|apply run_missing; left; exact E].
Qed.

Lemma tmp_ops_only tmp o : o ∈ tmp_ops tmp → o = ActionModule.MakeTmpPath.
Proof.
  unfold tmp_ops. destruct tmp as [t|]; [destruct (is_substring "-tmp-" t)|];
    intros H.
  - apply elem_of_nil in H. destruct H.
  - apply list_elem_of_singleton in H. exact H.
  - apply list_elem_of_singleton in H. exact H.
Qed.

Lemma chmod_ops_only self staged o :
  o ∈ chmod_ops self staged →
  o = ActionModule.RemoteChmod "a+r" staged ∧
  unprivileged self = true ∧ ActionModule.check_mode self = false.
Proof.
  unfold chmod_ops.
  destruct (unprivileged self); simpl;
    [|intros H; apply elem_of_nil in H; destruct H].
  destruct (ActionModule.check_mode self); simpl; intros H.
  - apply elem_of_nil in H. destruct H.
  - apply list_elem_of_singleton in H. auto.
Qed.

Lemma chmod_ops_due self staged :
  unprivileged self = true → ActionModule.check_mode self = false →
  chmod_ops self staged = [ActionModule.RemoteChmod "a+r" staged].
Proof. unfold chmod_ops. intros -> ->. reflexivity. Qed.

(** Everything a run has asked for, whatever its outcome. *)
Lemma run_ops self tmp res ops :
  ActionModule.run self tmp = (res, ops) →
  (src_missing self ∧ res = Some (failed_result self) ∧ ops = []) ∨
  (¬ src_missing self ∧ res = None ∧ (ops = [] ∨ ops = tmp_ops tmp)) ∨
  (¬ src_missing self ∧
   ∃ v local dir,
     ActionModule.task_args self !! "src" = Some v ∧
     ActionModule.path_dwim_relative self (files_root self) "files" v
       = Some local ∧
     ((tmp = Some dir ∧ is_substring "-tmp-" dir = true) ∨
      (ActionModule.make_tmp_path self = Some dir ∧
       ∀ t, tmp = Some t → is_substring "-tmp-" t = false)) ∧
     let staged := ActionModule.join_path self dir (basename local) in
     let a := <["src" := VStr staged]> (ActionModule.task_args self) in
     (res = None ∧ ops = tmp_ops tmp ++ [ActionModule.PutFile local staged] ∧
      ActionModule.put_file self local staged = None) ∨
     (res = None ∧
      ops = tmp_ops tmp ++ ActionModule.PutFile local staged
              :: chmod_ops self staged ∧
      ActionModule.put_file self local staged = Some tt ∧
      ActionModule.remote_chmod self "a+r" staged = None) ∨
     (res = (λ m, m ∪ ActionModule.base_result self)
              <$> ActionModule.execute_module self "concatfile" a ∧
      ops = tmp_ops tmp ++ ActionModule.PutFile local staged
              :: chmod_ops self staged
              ++ [ActionModule.ExecuteModule "concatfile" a] ∧
      ActionModule.put_file self local staged = Some tt)).
Proof.
  intros H. destruct (run_cases self tmp) as [(M & E)|(N & P)].
  - left. rewrite E in H. injection H as <- <-. auto.
  - rewrite H in P. cbn [fst snd] in P. right.
    inversion P as [v Ev Hv El| v local Ev Hv El | v local dir rest res' Ev Hv El Hd A];
      subst.
    + left. auto.
    + left. auto.
    + right. split; [exact N|]. exists v, local, dir.
      split; [exact Ev|]. split; [exact El|]. split; [exact Hd|].
      cbn zeta. inversion A as [Ep|Ep Ec|Ep]; subst.
      * left. auto.
      * right. left. auto.
      * right. right. auto.
Qed.

Ltac in_ops H :=
  repeat first
    [ apply elem_of_app in H as [H|H]
    | apply elem_of_cons in H as [H|H]
    | apply elem_of_nil in H; destruct H
    | apply tmp_ops_only in H
    | apply chmod_ops_only in H as (H & ? & ?) ];
  try discriminate H.

(** ** A plugin to run *)

Definition plugin0 : ActionModule.Plugin := {|
  ActionModule.base_result := {["invocation" := VStr "concatfile"]};
  ActionModule.task_args :=
    <["src" := VStr "motd"]> {["dest" := VStr "/etc/motd"]};
  ActionModule.role_path := None;
  ActionModule.get_basedir := "/play";
  ActionModule.path_dwim_relative := λ base dir v,
    match v with
    | VStr s => Some (path_join (path_join base dir) s)
    | _ => None
    end;
  ActionModule.make_tmp_path := Some "/home/app/.ansible/tmp/ansible-tmp-1";
  ActionModule.join_path := path_join;
  ActionModule.put_file := λ _ _, Some tt;
  ActionModule.become := true;
  ActionModule.become_user := "app";
  ActionModule.check_mode := false;
  ActionModule.remote_chmod := λ _ _, Some tt;
  ActionModule.execute_module := λ _ _, Some {["changed" := VBool true]}
|}.

Definition plugin_no_src : ActionModule.Plugin := {|
  ActionModule.base_result := {["invocation" := VStr "concatfile"]};
  ActionModule.task_args := {["dest" := VStr "/etc/motd"]};
  ActionModule.role_path := None;
  ActionModule.get_basedir := "/play";
  ActionModule.path_dwim_relative := λ base dir v,
    match v with
    | VStr s => Some (path_join (path_join base dir) s)
    | _ => None
    end;
  ActionModule.make_tmp_path := Some "/home/app/.ansible/tmp/ansible-tmp-1";
  ActionModule.join_path := path_join;
  ActionModule.put_file := λ _ _, Some tt;
  ActionModule.become := true;
  ActionModule.become_user := "app";
  ActionModule.check_mode := false;
  ActionModule.remote_chmod := λ _ _, Some tt;
  ActionModule.execute_module := λ _ _, Some {["changed" := VBool true]}
|}.

Definition staged0 : path := "/home/app/.ansible/tmp/ansible-tmp-1/motd".

Definition args0 : ActionModule.Args :=
  <["src" := VStr staged0]> (ActionModule.task_args plugin0).

Lemma plugin0_ops :
  (ActionModule.run plugin0 None).2 =
  [ActionModule.MakeTmpPath;
   ActionModule.PutFile "/play/files/motd" staged0;
   ActionModule.RemoteChmod "a+r" staged0;
   ActionModule.ExecuteModule "concatfile" args0].
Proof. reflexivity. Qed.

(** X13. A task without [src] (the key absent or holding [None]) is
    answered at once: the run returns the base result with [failed = True]
    and the message [src is required] added, every other key as it
    was, and asks nothing of the target. *)
Theorem missing_src_stops_early self tmp :
  src_missing self →
  ∃ r,
    ActionModule.run self tmp = (Some r, []) ∧
    r !! "failed" = Some (VBool true) ∧
    r !! "msg" = Some (VStr "src is required") ∧
    ∀ k, k ≠ "failed" → k ≠ "msg" →
      r !! k = ActionModule.base_result self !! k.
Proof.
  intros M. exists (failed_result self).
  split; [apply run_missing, M|]. unfold failed_result.
  split; [rewrite lookup_insert_ne by discriminate; apply lookup_insert_eq|].
  split; [apply lookup_insert_eq|].
  intros k K1 K2. rewrite !lookup_insert_ne by congruence. reflexivity.
Qed.

Lemma missing_src_stops_early_witness :
  ∃ r,
    ActionModule.run plugin_no_src (Some "/tmp/ansible-tmp-7") = (Some r, []) ∧
    r !! "failed" = Some (VBool true) ∧
    r !! "invocation" = Some (VStr "concatfile").
Proof.
  destruct (missing_src_stops_early plugin_no_src (Some "/tmp/ansible-tmp-7"))
    as (r & H & F & _ & K); [left; reflexivity|].
  exists r. split; [exact H|]. split; [exact F|].
  rewrite K by discriminate. reflexivity.
Defined.

(** X14. The module runs on the file just staged. Whenever a run asks for
    a module to be executed, it is [concatfile], the request is the last
    one and the only one of its kind, exactly one upload precedes it
    and has succeeded, and the arguments are the task's with [src]
    replaced by the path the file was uploaded to. What the run returns
    is what the executor gave, laid over the base result. *)
Theorem module_runs_on_staged_file self tmp res ops name a :
  ActionModule.run self tmp = (res, ops) →
  ActionModule.ExecuteModule name a ∈ ops →
  ∃ local staged pre mid,
    name = "concatfile" ∧
    ops = pre ++ ActionModule.PutFile local staged :: mid
              ++ [ActionModule.ExecuteModule name a] ∧
    Forall (λ o, is_execute o = false ∧ is_put o = false) (pre ++ mid) ∧
    ActionModule.put_file self local staged = Some tt ∧
    a = <["src" := VStr staged]> (ActionModule.task_args self) ∧
    res = (λ m, m ∪ ActionModule.base_result self)
            <$> ActionModule.execute_module self name a.
Proof.
  intros H Hin.
  destruct (run_ops self tmp res ops H)
    as [(_ & _ & ->)|[(_ & _ & [-> | ->])|(_ & v & local & dir & _ & _ & _ & S)]];
    [in_ops Hin..|].
  cbn zeta in S.
  destruct S as [(_ & -> & _)|[(_ & -> & _)|(-> & -> & Ep)]];
    [in_ops Hin..|].
  assert (name = "concatfile" ∧
          a = <["src" := VStr (ActionModule.join_path self dir (basename local))]>
                (ActionModule.task_args self)) as (-> & ->).
  { in_ops Hin. injection Hin as -> ->. auto. }
  exists local, (ActionModule.join_path self dir (basename local)),
    (tmp_ops tmp),
    (chmod_ops self (ActionModule.join_path self dir (basename local))).
  split; [reflexivity|]. split; [reflexivity|].
  split; [|auto].
  apply Forall_forall. intros o Ho.
  apply elem_of_app in Ho as [Ho|Ho].
  - apply tmp_ops_only in Ho as ->. auto.
  - apply chmod_ops_only in Ho as (-> & _). auto.
Qed.

Lemma module_runs_on_staged_file_witness :
  ∃ res ops local pre mid,
    ActionModule.run plugin0 None = (res, ops) ∧
    ops = pre ++ ActionModule.PutFile local staged0 :: mid
              ++ [ActionModule.ExecuteModule "concatfile" args0] ∧
    args0 !! "src" = Some (VStr staged0) ∧
    args0 !! "dest" = Some (VStr "/etc/motd").
Proof.
  pose proof (surjective_pairing (ActionModule.run plugin0 None)) as H.
  destruct (module_runs_on_staged_file plugin0 None _ _ "concatfile" args0 H)
    as (local & staged & pre & mid & _ & E & _ & _ & Ea & _).
  { rewrite plugin0_ops. do 3 apply list_elem_of_further.
    apply list_elem_of_here. }
  assert (staged = staged0) as ->.
  { assert (L : args0 !! "src" = Some (VStr staged0)) by reflexivity.
    rewrite Ea, lookup_insert_eq in L. congruence. }
  exists (ActionModule.run plugin0 None).1, (ActionModule.run plugin0 None).2,
    local, pre, mid.
  split; [exact H|]. split; [exact E|]. split; reflexivity.
Defined.

Lemma tmp_ops_reuse tmp dir :
  tmp = Some dir → is_substring "-tmp-" dir = true → tmp_ops tmp = [].
Proof. intros -> E. unfold tmp_ops. rewrite E. reflexivity. Qed.

Lemma tmp_ops_fresh tmp :
  (∀ t, tmp = Some t → is_substring "-tmp-" t = false) →
  tmp_ops tmp = [ActionModule.MakeTmpPath].
Proof.
  intros H. unfold tmp_ops. destruct tmp as [t|]; [|reflexivity].
  rewrite (H t eq_refl). reflexivity.
Qed.

(** X15. The file is staged under its base name, in the directory the
    caller gave when its name has [-tmp-], in a fresh one otherwise.
    Every upload a run asks for takes the source found under [files] to
    the staging directory joined with the base name of that source; a
    directory is made on the target exactly when the one given is not
    reused. *)
Theorem staged_under_base_name self tmp res ops local dst :
  ActionModule.run self tmp = (res, ops) →
  ActionModule.PutFile local dst ∈ ops →
  ∃ v dir,
    ActionModule.task_args self !! "src" = Some v ∧
    ActionModule.path_dwim_relative self (files_root self) "files" v
      = Some local ∧
    dst = ActionModule.join_path self dir (basename local) ∧
    ((tmp = Some dir ∧ is_substring "-tmp-" dir = true ∧
      ActionModule.MakeTmpPath ∉ ops) ∨
     (ActionModule.make_tmp_path self = Some dir ∧
      (∀ t, tmp = Some t → is_substring "-tmp-" t = false) ∧
      ActionModule.MakeTmpPath ∈ ops)).
Proof.
  intros H Hin.
  destruct (run_ops self tmp res ops H)
    as [(_ & _ & ->)|[(_ & _ & [-> | ->])|(_ & v & l & dir & Ev & El & Hd & St)]];
    [in_ops Hin..|].
  cbn zeta in St.
  assert (∃ rest,
            ops = tmp_ops tmp
                  ++ ActionModule.PutFile l
                       (ActionModule.join_path self dir (basename l)) :: rest ∧
            Forall (λ o, is_put o = false ∧ o ≠ ActionModule.MakeTmpPath) rest)
    as (rest & Eo & Hrest).
  { destruct St as [(_ & -> & _)|[(_ & -> & _)|(_ & -> & _)]];
      eexists; (split; [reflexivity|]).
    - constructor.
    - apply Forall_forall. intros o Ho.
      apply chmod_ops_only in Ho as (-> & _). split; [reflexivity|discriminate].
    - apply Forall_forall. intros o Ho. apply elem_of_app in Ho as [Ho|Ho].
      + apply chmod_ops_only in Ho as (-> & _).
        split; [reflexivity|discriminate].
      + apply list_elem_of_singleton in Ho as ->.
        split; [reflexivity|discriminate]. }
  rewrite Forall_forall in Hrest.
  assert (local = l ∧ dst = ActionModule.join_path self dir (basename l))
    as (-> & ->).
  { rewrite Eo in Hin. apply elem_of_app in Hin as [Hin|Hin].
    - apply tmp_ops_only in Hin. discriminate.
    - apply elem_of_cons in Hin as [Hin|Hin]; [injection Hin; auto|].
      apply Hrest in Hin as (Hin & _). discriminate. }
  exists v, dir. split; [exact Ev|]. split; [exact El|]. split; [reflexivity|].
  destruct Hd as [(Et & Es)|(Em & Hf)].
  - left. split; [exact Et|]. split; [exact Es|].
    rewrite Eo, (tmp_ops_reuse tmp dir Et Es). simpl. intros Hm.
    apply elem_of_cons in Hm as [Hm|Hm]; [discriminate|].
    apply Hrest in Hm as (_ & Hm). apply Hm. reflexivity.
  - right. split; [exact Em|]. split; [exact Hf|].
    rewrite Eo, (tmp_ops_fresh tmp Hf). apply list_elem_of_here.
Qed.

Lemma staged_under_base_name_witness :
  ∃ res ops dir,
    ActionModule.run plugin0 None = (res, ops) ∧
    ActionModule.PutFile "/play/files/motd" staged0 ∈ ops ∧
    staged0 = path_join dir "motd" ∧
    ActionModule.MakeTmpPath ∈ ops.
Proof.
  pose proof (surjective_pairing (ActionModule.run plugin0 None)) as H.
  assert (Hin : ActionModule.PutFile "/play/files/motd" staged0
                ∈ (ActionModule.run plugin0 None).2).
  { rewrite plugin0_ops. apply list_elem_of_further, list_elem_of_here. }
  destruct (staged_under_base_name plugin0 None _ _ _ _ H Hin)
    as (v & dir & _ & _ & E & [(Et & _)|(_ & _ & Hm)]); [discriminate|].
  exists (ActionModule.run plugin0 None).1, (ActionModule.run plugin0 None).2, dir.
  split; [exact H|]. split; [exact Hin|]. split; [exact E|exact Hm].
Defined.

(** X16. Read permission is granted only when it is needed. A run asks
    for a change of mode only outside check mode, when privilege
    escalation is on and the user escalated to is not [root]; the mode is
    [a+r] and the path is the one a file was just uploaded to. In that
    setting every run that reaches the module has asked for it. *)
Theorem chmod_only_for_unprivileged_user self tmp res ops :
  ActionModule.run self tmp = (res, ops) →
  (∀ m p, ActionModule.RemoteChmod m p ∈ ops →
     m = "a+r" ∧
     ActionModule.become self = true ∧
     ActionModule.become_user self ≠ "root" ∧
     ActionModule.check_mode self = false ∧
     ∃ local, ActionModule.PutFile local p ∈ ops ∧
              ActionModule.put_file self local p = Some tt) ∧
  (∀ name a, ActionModule.ExecuteModule name a ∈ ops →
     ActionModule.become self = true →
     ActionModule.become_user self ≠ "root" →
     ActionModule.check_mode self = false →
     ∃ p, ActionModule.RemoteChmod "a+r" p ∈ ops ∧
          a !! "src" = Some (VStr p)).
Proof.
  intros H.
  assert (U : ∀ staged o, o ∈ chmod_ops self staged →
            o = ActionModule.RemoteChmod "a+r" staged ∧
            ActionModule.become self = true ∧
            ActionModule.become_user self ≠ "root" ∧
            ActionModule.check_mode self = false).
  { intros staged o Ho. apply chmod_ops_only in Ho as (-> & Hu & Hc).
    unfold unprivileged in Hu. apply andb_true_iff in Hu as (Hb & Hu).
    apply negb_true_iff, String.eqb_neq in Hu. auto. }
  destruct (run_ops self tmp res ops H)
    as [(_ & _ & ->)|[(_ & _ & [-> | ->])|(_ & v & l & dir & Ev & El & Hd & St)]].
  1-3: split; [intros m p Hin; in_ops Hin|intros name a Hin; in_ops Hin].
  cbn zeta in St.
  set (staged := ActionModule.join_path self dir (basename l)) in *.
  destruct St as [(_ & -> & _)|[(_ & -> & Ep & _)|(_ & -> & Ep)]].
  - split; [intros m p Hin; in_ops Hin|intros name a Hin; in_ops Hin].
  - split; [|intros name a Hin; in_ops Hin].
    intros m p Hin. apply elem_of_app in Hin as [Hin|Hin];
      [apply tmp_ops_only in Hin; discriminate|].
    apply elem_of_cons in Hin as [Hin|Hin]; [discriminate|].
    destruct (U _ _ Hin) as (E & Hb & Hu & Hc). injection E as -> ->.
    repeat (split; [assumption || reflexivity|]).
    exists l. split; [|exact Ep].
    apply elem_of_app. right. apply list_elem_of_here.
  - split.
    + intros m p Hin. apply elem_of_app in Hin as [Hin|Hin];
        [apply tmp_ops_only in Hin; discriminate|].
      apply elem_of_cons in Hin as [Hin|Hin]; [discriminate|].
      apply elem_of_app in Hin as [Hin|Hin];
        [|apply list_elem_of_singleton in Hin; discriminate].
      destruct (U _ _ Hin) as (E & Hb & Hu & Hc). injection E as -> ->.
      repeat (split; [assumption || reflexivity|]).
      exists l. split; [|exact Ep].
      apply elem_of_app. right. apply list_elem_of_here.
    + intros name a Hin Hb Hu Hc.
      assert (a = <["src" := VStr staged]> (ActionModule.task_args self)) as ->.
      { apply elem_of_app in Hin as [Hin|Hin];
          [apply tmp_ops_only in Hin; discriminate|].
        apply elem_of_cons in Hin as [Hin|Hin]; [discriminate|].
        apply elem_of_app in Hin as [Hin|Hin].
        - apply chmod_ops_only in Hin as (Hin & _). discriminate.
        - apply list_elem_of_singleton in Hin. injection Hin as _ ->.
          reflexivity. }
      exists staged. split; [|apply lookup_insert_eq].
      rewrite chmod_ops_due.
      * apply elem_of_app. right. apply list_elem_of_further, list_elem_of_here.
      * unfold unprivileged. rewrite Hb. simpl.
        apply negb_true_iff, String.eqb_neq, Hu.
      * exact Hc.
Qed.

Lemma chmod_only_for_unprivileged_user_witness :
  ∃ res ops,
    ActionModule.run plugin0 None = (res, ops) ∧
    ActionModule.RemoteChmod "a+r" staged0 ∈ ops ∧
    ActionModule.become_user plugin0 ≠ "root".
Proof.
  pose proof (surjective_pairing (ActionModule.run plugin0 None)) as H.
  assert (Hin : ActionModule.RemoteChmod "a+r" staged0
                ∈ (ActionModule.run plugin0 None).2).
  { rewrite plugin0_ops. do 2 apply list_elem_of_further.
    apply list_elem_of_here. }
  destruct (chmod_only_for_unprivileged_user plugin0 None _ _ H) as [C _].
  destruct (C "a+r" staged0 Hin) as (_ & _ & Hu & _).
  exists (ActionModule.run plugin0 None).1, (ActionModule.run plugin0 None).2.
  split; [exact H|]. split; [exact Hin|exact Hu].
Defined.

(** X17. What the module returns is laid over the base result. A run on a
    task with a source that returns has had the module executed, and
    its result holds every key of the module's result with the module's
    value, and the base result's value for every other key. *)
Theorem module_result_overrides self tmp r ops :
  ActionModule.run self tmp = (Some r, ops) →
  ¬ src_missing self →
  ∃ a m,
    ActionModule.ExecuteModule "concatfile" a ∈ ops ∧
    ActionModule.execute_module self "concatfile" a = Some m ∧
    ∀ k, r !! k = match m !! k with
                  | Some v => Some v
                  | None => ActionModule.base_result self !! k
                  end.
Proof.
  intros H N.
  destruct (run_ops self tmp (Some r) ops H)
    as [(M & _)|[(_ & E & _)|(_ & v & l & dir & Ev & El & Hd & S)]];
    [contradiction|discriminate|].
  cbn zeta in S.
  destruct S as [(E & _)|[(E & _)|(E & -> & Ep)]]; [discriminate..|].
  destruct (ActionModule.execute_module self "concatfile" _) as [m|] eqn:Ee;
    [|discriminate].
  injection E as ->. eexists _, m. split; [|split; [exact Ee|]].
  - apply elem_of_app. right. apply list_elem_of_further.
    apply elem_of_app. right. apply list_elem_of_here.
  - intros k. rewrite lookup_union.
    destruct (m !! k), (ActionModule.base_result self !! k); reflexivity.
Qed.

Lemma module_result_overrides_witness :
  ∃ r ops,
    ActionModule.run plugin0 None = (Some r, ops) ∧
    r !! "changed" = Some (VBool true) ∧
    r !! "invocation" = Some (VStr "concatfile").
Proof.
  assert (H : ActionModule.run plugin0 None =
              (Some ({["changed" := VBool true]}
                       ∪ ActionModule.base_result plugin0),
               (ActionModule.run plugin0 None).2)) by reflexivity.
  destruct (module_result_overrides plugin0 None _ _ H)
    as (a & m & _ & Em & K).
  { intros [E|E]; discriminate E. }
  injection Em as <-.
  eexists _, _. split; [exact H|]. split; rewrite K; reflexivity.
Defined.
